(** * Effect demos: swappable user repositories over a key-value store

    A shallow embedding of the three TypeScript scripts of the repository
    ([src/Program.ts] and the two unnamed scripts, called [Part000] and
    [Part001] below) and the properties their specification states.

    The scripts are written against the [effect] library and the browser
    platform ([localStorage], [JSON], [console]).  The platform is modelled
    as explicit state ([World]); an effect is a state-passing function that
    ends in one of the three exits of the library: success, typed failure,
    or defect. *)

From Stdlib Require Import ZArith String Ascii List.
From Stdlib Require Import DecimalString DecimalPos DecimalN DecimalZ.
From stdpp Require Import base gmap strings list.

Set Warnings "-register-all".

Open Scope string_scope.
Open Scope Z_scope.

(** ** JavaScript values *)

Module Js.

(** An instance of [Error]: what [error instanceof Error] recognises.
    [name] and [message] are the two fields the scripts set or read. *)
Record Error := mkError { name : string; message : string }.

(** Anything a [throw] can carry.  The scripts only ask whether it is an
    [Error] instance. *)
Inductive Thrown :=
| ThrownError (e : Error)
| ThrownOther.

(** How a JavaScript expression or block ends. *)
Inductive Completion (A : Type) :=
| Normal (a : A)
| Throw (t : Thrown).
Arguments Normal {A} a.
Arguments Throw {A} t.

(** What [JSON.parse] can return.  Numbers are integers: the identifier
    of a user is an integer, and no script computes with fractions.
    [undefined] is not JSON data; a value that may be [undefined] is an
    [option json] with [None] for [undefined]. *)
Inductive json :=
| JNull
| JBool (b : bool)
| JNum (n : Z)
| JStr (s : string)
| JArr (elems : list json)
| JObj (props : list (string * json)).

(** [ToBoolean] on JSON data: [null], [false], [0] and the empty string
    are falsy, every array and object is truthy. *)
Definition truthy (v : json) : bool :=
  match v with
  | JNull => false
  | JBool b => b
  | JNum n => negb (n =? 0)
  | JStr s => negb (String.eqb s "")
  | JArr _ => true
  | JObj _ => true
  end.

(** [ToBoolean] on the result of [localStorage.getItem]: [null] and the
    empty string are falsy. *)
Definition truthy_item (item : option string) : bool :=
  match item with
  | None => false
  | Some s => negb (String.eqb s "")
  end.

(** The engine's [TypeError]s.  Their messages are engine specific and no
    script reads them. *)
Definition TypeError (what : string) : Thrown :=
  ThrownError {| name := "TypeError"; message := what |}.

(** First binding of a key in a property list. *)
Fixpoint lookup_prop (k : string) (props : list (string * json)) : option json :=
  match props with
  | [] => None
  | (k', v) :: rest => if String.eqb k k' then Some v else lookup_prop k rest
  end.

(** [v.id]: reading a property of [null] throws; an object answers with
    its own property; a boolean, a number, a string or an array has no
    property of that name. *)
Definition get_id (v : json) : Completion (option json) :=
  match v with
  | JNull => Throw (TypeError "Cannot read properties of null")
  | JObj props => Normal (lookup_prop "id" props)
  | _ => Normal None
  end.

(** [x === n] for a number [n]. *)
Definition strict_eq_number (x : option json) (n : Z) : bool :=
  match x with
  | Some (JNum m) => m =? n
  | _ => false
  end.

(** [Array.prototype.find]: the first element the callback accepts; the
    callback's exception ends the search. *)
Fixpoint Array_find {A} (p : A -> Completion bool) (l : list A)
  : Completion (option A) :=
  match l with
  | [] => Normal None
  | x :: rest =>
      match p x with
      | Throw t => Throw t
      | Normal true => Normal (Some x)
      | Normal false => Array_find p rest
      end
  end.

(** [Array.prototype.findIndex], counting from [from]; [-1] when the
    callback accepts no element. *)
Fixpoint Array_findIndex_from {A} (p : A -> Completion bool) (from : Z) (l : list A)
  : Completion Z :=
  match l with
  | [] => Normal (-1)
  | x :: rest =>
      match p x with
      | Throw t => Throw t
      | Normal true => Normal from
      | Normal false => Array_findIndex_from p (from + 1) rest
      end
  end.

Definition Array_findIndex {A} (p : A -> Completion bool) (l : list A) : Completion Z :=
  Array_findIndex_from p 0 l.

(** [users.find(..)] and [users.findIndex(..)] as method calls on a
    value the type checker took for an array: on [null] the property
    read throws, on any other value that is not an array [find] and
    [findIndex] are no functions and the call throws. *)
Definition call_find (receiver : json) (p : json -> Completion bool)
  : Completion (option json) :=
  match receiver with
  | JArr l => Array_find p l
  | JNull => Throw (TypeError "Cannot read properties of null")
  | _ => Throw (TypeError "find is not a function")
  end.

Definition call_findIndex (receiver : json) (p : json -> Completion bool)
  : Completion Z :=
  match receiver with
  | JArr l => Array_findIndex p l
  | JNull => Throw (TypeError "Cannot read properties of null")
  | _ => Throw (TypeError "findIndex is not a function")
  end.

(** The callback [(user) => user.id === id] on a run-time value. *)
Definition has_id (id : Z) (user : json) : Completion bool :=
  match get_id user with
  | Normal x => Normal (strict_eq_number x id)
  | Throw t => Throw t
  end.

(** [x === s] for a string [s] and an [x] that may be [undefined]. *)
Definition strict_eq_string (x : option string) (s : string) : bool :=
  match x with
  | Some y => String.eqb y s
  | None => false
  end.

Definition Completion_map {A B} (f : A -> B) (c : Completion A) : Completion B :=
  match c with
  | Normal a => Normal (f a)
  | Throw t => Throw t
  end.

(** [l.slice(0, i)] and [l.slice(i)] for [0 <= i]. *)
Definition slice_to {A} (i : Z) (l : list A) : list A := take (Z.to_nat i) l.
Definition slice_from {A} (i : Z) (l : list A) : list A := drop (Z.to_nat i) l.

(** [Number.prototype.toString] on an integer: decimal digits, with a
    minus sign below zero. *)
Definition Number_toString (n : Z) : string :=
  NilZero.string_of_int (Z.to_int n).

End Js.

Import Js.

(** ** Data shared by the three scripts *)

(** [type User = { id: number, name: string }]. *)
Module User.
Record t := mk { id : Z; name : string }.
End User.

(** The object a [User] is at run time, as [JSON.stringify] sees it and as
    [JSON.parse] gives it back. *)
Definition of_user (u : User.t) : json :=
  JObj [("id", JNum (User.id u)); ("name", JStr (User.name u))].

Definition of_users (l : list User.t) : json := JArr (of_user <$> l).

(** [class UserRepositoryError extends Error]. *)
Module UserRepositoryError.
Definition new (message : string) : Js.Error :=
  {| Js.name := "UserRepositoryError";
     Js.message := "UserRepositoryError: " +:+ message |}.

Definition NotFound (id : Z) : Js.Error :=
  new ("User with id " +:+ Number_toString id +:+ " not found").
End UserRepositoryError.

(** [class LocalStorageError extends Error], with its three static
    constructors. *)
Module LocalStorageError.
Definition new (message : string) : Js.Error :=
  {| Js.name := "LocalStorageError";
     Js.message := "LocalStorageError: " +:+ message |}.

Definition parseError (error : Thrown) : Js.Error :=
  match error with
  | ThrownError e => new (Js.message e)
  | ThrownOther => new "Unknown error"
  end.

Definition stringifyError (error : Thrown) : Js.Error :=
  match error with
  | ThrownError e => new (Js.message e)
  | ThrownOther => new "Unknown error"
  end.

Definition NotFound (key : string) : Js.Error :=
  new ("LocalStorage key " +:+ key +:+ " not found").
End LocalStorageError.

(** ** The platform *)

(** The browser's [localStorage]: string items under string keys.  Two
    things can go wrong outside the scripts' control: the global may be
    unusable (absent outside a browser, or denied), so that every use
    throws, and [setItem] may refuse a write (quota). *)
Record Storage := mkStorage {
  items : gmap string string;
  unavailable : option Thrown;
  quota_exceeded : string -> string -> option Thrown
}.

(** The module-level [users] array of the in-memory repositories.  The
    only write in the scripts is [users[users.findIndex(..)] = user], whose
    index is [-1] or the index of an element: at [-1] the assignment
    creates the property ["-1"] on the array object and touches neither an
    element nor [length]. *)
Record UsersArray := mkUsersArray {
  elems : list User.t;
  minus_one : option User.t
}.

(** One line of [console.log(label, value)]; [None] is [undefined]. *)
Definition Line : Type := string * option json.

Record World := mkWorld {
  localStorage : Storage;
  users : UsersArray;
  console : list Line
}.

Definition set_items (f : gmap string string -> gmap string string) (w : World) : World :=
  {| localStorage :=
       {| items := f (items (localStorage w));
          unavailable := unavailable (localStorage w);
          quota_exceeded := quota_exceeded (localStorage w) |};
     users := users w;
     console := console w |}.

Definition set_users (a : UsersArray) (w : World) : World :=
  {| localStorage := localStorage w; users := a; console := console w |}.

Definition add_line (line : Line) (w : World) : World :=
  {| localStorage := localStorage w; users := users w; console := console w ++ [line] |}.

(** A block of JavaScript: it reads and writes the platform and ends
    normally or by throwing. *)
Definition Block (A : Type) : Type := World -> Completion A * World.

Definition localStorage_getItem (key : string) : Block (option string) :=
  fun w =>
    match unavailable (localStorage w) with
    | Some t => (Throw t, w)
    | None => (Normal (items (localStorage w) !! key), w)
    end.

Definition localStorage_setItem (key value : string) : Block unit :=
  fun w =>
    match unavailable (localStorage w) with
    | Some t => (Throw t, w)
    | None =>
        match quota_exceeded (localStorage w) key value with
        | Some t => (Throw t, w)
        | None => (Normal tt, set_items (insert key value) w)
        end
    end.

Definition localStorage_removeItem (key : string) : Block unit :=
  fun w =>
    match unavailable (localStorage w) with
    | Some t => (Throw t, w)
    | None => (Normal tt, set_items (delete key) w)
    end.

(** [JSON.parse] and [JSON.stringify] belong to the platform, not to the
    scripts: they are an interface here.  [JSON_parse] throws (a
    [SyntaxError]) on text that is not JSON. *)
Class JSON := {
  JSON_parse : string -> Completion json;
  JSON_stringify : json -> string
}.

(** The two facts about the platform's JSON that the stored user data rely
    on: serialized data is never the empty text, and a user record or an
    array of user records reads back as it was written. *)
Inductive user_data : json -> Prop :=
| user_data_one (u : User.t) : user_data (of_user u)
| user_data_many (l : list User.t) : user_data (of_users l).

Class JSONLaws (J : JSON) : Prop := {
  JSON_stringify_nonempty : forall v, JSON_stringify v <> "";
  JSON_parse_stringify : forall v, user_data v -> JSON_parse (JSON_stringify v) = Normal v
}.

(** ** The effect library *)

(** How running an effect ends: [Success], a typed [Failure] (what
    [Effect.fail] and a failed [Effect.try] produce, what [catchAll]
    handles), or [Die], a defect: an exception thrown where the library
    expects none.  No handler of the scripts sees a defect. *)
Inductive Exit (A E : Type) :=
| Success (a : A)
| Failure (e : E)
| Die (defect : Thrown).
Arguments Success {A E} a.
Arguments Failure {A E} e.
Arguments Die {A E} defect.

(** [Effect.Effect<A, E>], run against the platform.  The third type
    parameter of the library, the services an effect requires, is an
    ordinary argument of the functions below. *)
Definition Effect (A E : Type) : Type := World -> Exit A E * World.

Module Effect.

Definition succeed {A E} (a : A) : Effect A E := fun w => (Success a, w).

Definition fail {A E} (e : E) : Effect A E := fun w => (Failure e, w).

Definition die {A E} (t : Thrown) : Effect A E := fun w => (Die t, w).

(** [Effect.flatMap]; also [yield*] inside [Effect.gen]. *)
Definition flatMap {A B E} (k : A -> Effect B E) (self : Effect A E) : Effect B E :=
  fun w =>
    match self w with
    | (Success a, w') => k a w'
    | (Failure e, w') => (Failure e, w')
    | (Die t, w') => (Die t, w')
    end.

(** [Effect.map]: an exception of the callback is a defect. *)
Definition map {A B E} (f : A -> Completion B) (self : Effect A E) : Effect B E :=
  fun w =>
    match self w with
    | (Success a, w') =>
        match f a with
        | Normal b => (Success b, w')
        | Throw t => (Die t, w')
        end
    | (Failure e, w') => (Failure e, w')
    | (Die t, w') => (Die t, w')
    end.

(** [Effect.catchAll]: handles every typed failure, no defect. *)
Definition catchAll {A E E'} (h : E -> Effect A E') (self : Effect A E) : Effect A E' :=
  fun w =>
    match self w with
    | (Success a, w') => (Success a, w')
    | (Failure e, w') => h e w'
    | (Die t, w') => (Die t, w')
    end.

(** [Effect.try({ try, catch })]: what the block throws becomes the
    typed failure [catch] makes of it. *)
Definition try_ {A E} (body : Block A) (catch : Thrown -> E) : Effect A E :=
  fun w =>
    match body w with
    | (Normal a, w') => (Success a, w')
    | (Throw t, w') => (Failure (catch t), w')
    end.

(** A plain expression evaluated inside [Effect.gen] or as the argument
    of [Effect.succeed]: its exception is a defect. *)
Definition of_completion {A E} (c : Completion A) : Effect A E :=
  match c with
  | Normal a => succeed a
  | Throw t => die t
  end.

(** [console.log(label, value)] as a step of a generator. *)
Definition log {E} (label : string) (value : option json) : Effect unit E :=
  fun w => (Success tt, add_line (label, value) w).

End Effect.

(** [const x = yield* e; k] inside [Effect.gen]. *)
Notation "'let*' x := e 'in' k" := (Effect.flatMap (fun x => k) e)
  (at level 10, x name, e at level 100, k at level 200, only parsing).

(** The pipe of the library: [self.pipe(f, g)] is [g (f self)]. *)
Notation "self |> f" := (f self) (at level 50, left associativity, only parsing).

Module Block.
Definition ret {A} (a : A) : Block A := fun w => (Normal a, w).
Definition throw {A} (t : Thrown) : Block A := fun w => (Throw t, w).
Definition of_completion {A} (c : Completion A) : Block A := fun w => (c, w).
Definition bind {A B} (b : Block A) (k : A -> Block B) : Block B :=
  fun w =>
    match b w with
    | (Normal a, w') => k a w'
    | (Throw t, w') => (Throw t, w')
    end.
End Block.

(** The seed of both in-memory repositories. *)
Definition seed : list User.t :=
  [ User.mk 1 "User 1"; User.mk 2 "User 2" ].

(** The platform a script starts on: [storage] is whatever the browser
    holds, the [users] array is the seed, nothing is printed yet. *)
Definition initial_world (storage : Storage) : World :=
  {| localStorage := storage;
     users := {| elems := seed; minus_one := None |};
     console := [] |}.

Definition empty_storage : Storage :=
  {| items := ∅; unavailable := None; quota_exceeded := fun _ _ => None |}.

(** ** [src/Program.ts] *)

Module Program.

Record UserRepository := {
  findById : Z -> Effect User.t Empty_set;
  findAll : Effect (list User.t) Empty_set
}.

Record UserService := {
  getUser : Z -> Effect User.t Empty_set
}.

(** [Option.isNone]. *)
Definition Option_isNone {A} (o : option A) : bool :=
  match o with
  | None => true
  | Some _ => false
  end.

Definition userRepositoryLive : UserRepository :=
  {| findById := fun id =>
       Effect.succeed (User.mk id ("User " +:+ Number_toString id));
     findAll := Effect.succeed [ User.mk 1 "User 1"; User.mk 2 "User 2" ] |}.

Definition userServiceLive : UserService :=
  {| getUser := fun id =>
       Effect.succeed (User.mk id ("User " +:+ Number_toString id)) |}.

(** [program] under a context: [UserRepository] is required, and
    [Effect.serviceOption(UserService)] answers with the service when
    the context has one and with [Option.none()] when it has none. *)
Definition program (userRepository : UserRepository)
    (userService : option UserService) : Effect unit Empty_set :=
  let* user :=
    (if Option_isNone userService
     then Effect.succeed (User.mk 1 "Optional User")
     else findById userRepository 1) in
  let* _ := Effect.log "userService" (Some (of_user user)) in
  let* user2 := findById userRepository 2 in
  Effect.log "userRepository" (Some (of_user user2)).

(** [Effect.runSync(program.pipe(provideService(..), provideService(..)))]. *)
Definition main : Effect unit Empty_set :=
  program userRepositoryLive (Some userServiceLive).

End Program.

(** ** The first unnamed script: a strict store, repositories without
       [update] *)

Module Part000.
Section Script.
Context {J : JSON}.

Record UserRepository := {
  findById : Z -> Effect (option json) Js.Error;
  findAll : Effect json Js.Error
}.

Record LocalStorageService := {
  getItem : string -> Effect json Js.Error;
  setItem : string -> json -> Effect unit Js.Error;
  removeItem : string -> Effect unit Js.Error
}.

(** The [try] block of [getItem].  [JSON.parse(item)] is reached only
    with a string; [default] spells out what the call would coerce
    [null] to. *)
Definition getItem_try (key : string) : Block json :=
  Block.bind (localStorage_getItem key) (fun item =>
    if negb (truthy_item item)
    then Block.throw (ThrownError (LocalStorageError.NotFound key))
    else Block.of_completion (JSON_parse (default "null" item))).

Definition setItem_try (key : string) (value : json) : Block unit :=
  Block.bind (Block.ret (JSON_stringify value)) (fun stringifiedValue =>
    localStorage_setItem key stringifiedValue).

Definition localStorageServiceLive : LocalStorageService :=
  {| getItem := fun key =>
       Effect.try_ (getItem_try key) LocalStorageError.parseError;
     setItem := fun key value =>
       Effect.try_ (setItem_try key value) LocalStorageError.stringifyError;
     removeItem := fun key =>
       Effect.try_ (localStorage_removeItem key) LocalStorageError.parseError |}.

(** [users.find(..)] and [Effect.succeed(users)] read the module-level
    array when the repository function is called; every caller runs the
    returned effect at once ([yield*]), so call and run are one step. *)
Definition userInmemoryRepositoryLive : UserRepository :=
  {| findAll := fun w =>
       Effect.succeed (of_users (elems (users w))) w;
     findById := fun id w =>
       let user :=
         Array_find (fun user => Normal (User.id user =? id)) (elems (users w)) in
       Effect.of_completion (Completion_map (fmap of_user) user) w |}.

(** The repository over the store, before [provideService] gives it the
    [LocalStorageService] it asks the context for. *)
Definition userLocalStorageRepository_with (localStorageService : LocalStorageService)
  : UserRepository :=
  {| findById := fun id =>
       let* users :=
         getItem localStorageService "users"
           |> Effect.catchAll (fun _ => Effect.succeed (E := Js.Error) (JArr [])) in
       Effect.of_completion (call_find users (has_id id));
     findAll :=
       let* users :=
         getItem localStorageService "users"
           |> Effect.catchAll (fun _ => Effect.succeed (E := Js.Error) (JArr [])) in
       Effect.succeed users |}.

Definition userLocalStorageRepositoryLive : UserRepository :=
  userLocalStorageRepository_with localStorageServiceLive.

Definition main (userRepository : UserRepository) : Effect unit Js.Error :=
  let* userWithError := findById userRepository 1 in
  let* user2 := findById userRepository 2 in
  let* all := findAll userRepository in
  let* _ := Effect.log "user1" userWithError in
  let* _ := Effect.log "user2" user2 in
  Effect.log "all" (Some all).

(** [Effect.runSync(main.pipe(Effect.provideService(UserRepository,
    userLocalStorageRepositoryLive)))]. *)
Definition run : Effect unit Js.Error := main userLocalStorageRepositoryLive.

End Script.
End Part000.

(** ** The second unnamed script: a permissive store, repositories with
       [update], layers chosen by the environment *)

Module Part001.
Section Script.
Context {J : JSON}.

Record LocalStorageService := {
  getItem : string -> Effect (option json) Js.Error;
  setItem : string -> json -> Effect unit Js.Error;
  removeItem : string -> Effect unit Js.Error
}.

Record UserRepository := {
  update : User.t -> Effect unit Js.Error;
  findById : Z -> Effect (option json) Js.Error;
  findAll : Effect json Js.Error
}.

Definition getItem_try (key : string) : Block (option json) :=
  Block.bind (localStorage_getItem key) (fun item =>
    if negb (truthy_item item)
    then Block.ret None
    else Block.of_completion
           (Completion_map Some (JSON_parse (default "null" item)))).

Definition setItem_try (key : string) (value : json) : Block unit :=
  Block.bind (Block.ret (JSON_stringify value)) (fun stringifiedValue =>
    localStorage_setItem key stringifiedValue).

Definition localStorageServiceLive : LocalStorageService :=
  {| getItem := fun key =>
       Effect.try_ (getItem_try key) LocalStorageError.parseError;
     setItem := fun key value =>
       Effect.try_ (setItem_try key value) LocalStorageError.stringifyError;
     removeItem := fun key =>
       Effect.try_ (localStorage_removeItem key) LocalStorageError.parseError |}.

(** [users || []]. *)
Definition or_empty (users : option json) : json :=
  match users with
  | Some v => if truthy v then v else JArr []
  | None => JArr []
  end.

(** The callback of the second [Effect.map] of [update]. *)
Definition replace_user (user : User.t) (users : json) : Completion json :=
  match call_findIndex users (has_id (User.id user)) with
  | Throw t => Throw t
  | Normal index =>
      if index =? -1 then Normal users
      else
        match users with
        | JArr l =>
            Normal (JArr (slice_to index l ++ [of_user user] ++ slice_from (index + 1) l))
        | _ => Throw (TypeError "slice is not a function")
        end
  end.

(** The record [userLocalStorageRepository] returns, for the
    [LocalStorageService] it took from the context. *)
Definition userLocalStorageRepository_of (localStorageService : LocalStorageService)
  : UserRepository :=
  {| findById := fun id =>
       getItem localStorageService "users"
         |> Effect.map (fun users => Normal (or_empty users))
         |> Effect.catchAll (fun _ => Effect.succeed (E := Js.Error) (JArr []))
         |> Effect.map (fun users => call_find users (has_id id));
     findAll :=
       getItem localStorageService "users"
         |> Effect.map (fun users => Normal (or_empty users))
         |> Effect.catchAll (fun _ => Effect.succeed (E := Js.Error) (JArr []));
     update := fun user =>
       getItem localStorageService "users"
         |> Effect.map (fun users => Normal (or_empty users))
         |> Effect.map (replace_user user)
         |> Effect.flatMap (fun users => setItem localStorageService "users" users)
         |> Effect.catchAll (fun _ => Effect.succeed (E := Js.Error) tt) |}.

Definition userLocalStorageRepository (localStorageService : LocalStorageService)
  : Effect UserRepository Empty_set :=
  Effect.succeed (userLocalStorageRepository_of localStorageService).

(** [users[index] = user] for the index [findIndex] gave: the property
    ["-1"] at [-1], the element at an index below [length].  An index
    from [length] on would grow the array, which [insert] does not do,
    and an index below [-1] would create another property; [findIndex]
    gives neither ([inMemory_update_index] below). *)
Definition array_set (a : UsersArray) (index : Z) (user : User.t) : UsersArray :=
  if index =? -1
  then {| elems := elems a; minus_one := Some user |}
  else if 0 <=? index
  then {| elems := <[Z.to_nat index := user]> (elems a); minus_one := minus_one a |}
  else a.

(** The functions read and write the module-level array when they are
    called; every caller runs the returned effect at once, so call and
    run are one step.  [update] is typed [void]; the value of the
    assignment it passes to [Effect.succeed] is not looked at. *)
Definition inMemoryUserRepository_of : UserRepository :=
  {| findById := fun id w =>
       let user :=
         Array_find (fun user => Normal (User.id user =? id)) (elems (users w)) in
       Effect.of_completion (Completion_map (fmap of_user) user) w;
     findAll := fun w =>
       Effect.succeed (of_users (elems (users w))) w;
     update := fun user w =>
       match Array_findIndex (fun u => Normal (User.id u =? User.id user))
               (elems (users w)) with
       | Normal index => (Success tt, set_users (array_set (users w) index user) w)
       | Throw t => (Die t, w)
       end |}.

Definition inMemoryUserRepository : Effect UserRepository Empty_set :=
  Effect.succeed inMemoryUserRepository_of.

(** A layer for [UserRepository]: the effect that builds the service. *)
Definition Layer : Type := Effect UserRepository Empty_set.

(** [Layer.succeed(LocalStorageService, localStorageServiceLive)]: the
    layer that holds the service as it is. *)
Definition localStorageLayer : LocalStorageService := localStorageServiceLive.

(** [Layer.effect(UserRepository, userLocalStorageRepository.pipe(
    Effect.provide(localStorageLayer)))]. *)
Definition userLocalStorageRepositoryLayer : Layer :=
  userLocalStorageRepository localStorageLayer.

Definition inMemoryUserRepositoryLayer : Layer := inMemoryUserRepository.

Definition selectUserRepositoryLayer (isDevelopment : bool) : Layer :=
  if isDevelopment then inMemoryUserRepositoryLayer else userLocalStorageRepositoryLayer.

(** [Effect.provide(layer)]: build the service, then run the effect
    that requires it. *)
Definition provide {A} (layer : Layer) (self : UserRepository -> Effect A Js.Error)
  : Effect A Js.Error :=
  fun w =>
    match layer w with
    | (Success userRepository, w') => self userRepository w'
    | (Failure e, w') => match e with end
    | (Die t, w') => (Die t, w')
    end.

Definition main (userRepository : UserRepository) : Effect unit Js.Error :=
  let* userWithError := findById userRepository 1 in
  let* user2 := findById userRepository 2 in
  let* all := findAll userRepository in
  let* _ := Effect.log "user1" userWithError in
  let* _ := Effect.log "user2" user2 in
  Effect.log "all" (Some all).

(** [Effect.runSync(main.pipe(Effect.provide(selectUserRepositoryLayer(
    process.env.BUN_ENV === "development"))))], for the value of the
    environment variable ([None] when it is not set). *)
Definition run (BUN_ENV : option string) : Effect unit Js.Error :=
  provide (selectUserRepositoryLayer (strict_eq_string BUN_ENV "development")) main.

End Script.
End Part001.

(** ** A reference [JSON]

    An executable [JSON] for the data model above (integers, strings of
    code units below 256): the serializer writes what [JSON.stringify]
    writes for such data, the parser reads the JSON grammar without
    fractions and exponents.  It shows that [JSONLaws] can be met and
    gives the examples something to run on. *)

Module RefJSON.

Definition quote : ascii := "034"%char.
Definition backslash : ascii := "092"%char.

Definition hex_digit (n : N) : ascii :=
  if (n <? 10)%N then ascii_of_N (48 + n) else ascii_of_N (87 + n).

(** [QuoteJSONString], one code unit. *)
Definition escape_char (c : ascii) : string :=
  let n := N_of_ascii c in
  if Ascii.eqb c quote then String backslash (String quote "")
  else if Ascii.eqb c backslash then String backslash (String backslash "")
  else if (n =? 8)%N then String backslash "b"
  else if (n =? 12)%N then String backslash "f"
  else if (n =? 10)%N then String backslash "n"
  else if (n =? 13)%N then String backslash "r"
  else if (n =? 9)%N then String backslash "t"
  else if (n <? 32)%N
  then String backslash
         (String "u" (String "0" (String "0"
            (String (hex_digit (n / 16)) (String (hex_digit (n mod 16)) "")))))
  else String c "".

Fixpoint escape (s : string) : string :=
  match s with
  | EmptyString => ""
  | String c rest => escape_char c +:+ escape rest
  end.

Definition print_string (s : string) : string :=
  String quote (escape s +:+ String quote "").

Fixpoint join (parts : list string) : string :=
  match parts with
  | [] => ""
  | [p] => p
  | p :: rest => p +:+ "," +:+ join rest
  end.

Fixpoint stringify (v : json) : string :=
  match v with
  | JNull => "null"
  | JBool true => "true"
  | JBool false => "false"
  | JNum n => Number_toString n
  | JStr s => print_string s
  | JArr l => "[" +:+ join (List.map stringify l) +:+ "]"
  | JObj props =>
      "{" +:+ join (List.map (fun kv => print_string (fst kv) +:+ ":" +:+ stringify (snd kv)) props)
          +:+ "}"
  end.

(** *** Reading *)

Definition is_ws (c : ascii) : bool :=
  let n := N_of_ascii c in
  ((n =? 32) || (n =? 9) || (n =? 10) || (n =? 13))%N.

Fixpoint skip_ws (s : string) : string :=
  match s with
  | EmptyString => ""
  | String c rest => if is_ws c then skip_ws rest else s
  end.

Definition hex_value (c : ascii) : option N :=
  let n := N_of_ascii c in
  if ((48 <=? n) && (n <=? 57))%N then Some (n - 48)%N
  else if ((97 <=? n) && (n <=? 102))%N then Some (n - 87)%N
  else if ((65 <=? n) && (n <=? 70))%N then Some (n - 55)%N
  else None.

(** The character a one-letter escape stands for. *)
Definition unescape (e : ascii) : option ascii :=
  if Ascii.eqb e quote then Some quote
  else if Ascii.eqb e backslash then Some backslash
  else if Ascii.eqb e "/" then Some "/"%char
  else if Ascii.eqb e "b" then Some (ascii_of_N 8)
  else if Ascii.eqb e "f" then Some (ascii_of_N 12)
  else if Ascii.eqb e "n" then Some (ascii_of_N 10)
  else if Ascii.eqb e "r" then Some (ascii_of_N 13)
  else if Ascii.eqb e "t" then Some (ascii_of_N 9)
  else None.

(** [\uXXXX]; code units from 256 on are outside the byte strings of the
    model and refused. *)
Definition unicode_escape (h1 h2 h3 h4 : ascii) : option ascii :=
  match hex_value h1, hex_value h2, hex_value h3, hex_value h4 with
  | Some a, Some b, Some c, Some d =>
      let n := (((a * 16 + b) * 16 + c) * 16 + d)%N in
      if (n <? 256)%N then Some (ascii_of_N n) else None
  | _, _, _, _ => None
  end.

Definition cons_char (c : ascii) (r : option (string * string)) : option (string * string) :=
  match r with
  | Some (str, rest) => Some (String c str, rest)
  | None => None
  end.

(** The characters of a string after its opening quote, up to and with
    the closing quote. *)
Fixpoint parse_string_chars (s : string) : option (string * string) :=
  match s with
  | EmptyString => None
  | String c rest =>
      if Ascii.eqb c quote then Some ("", rest)
      else if Ascii.eqb c backslash then
        match rest with
        | EmptyString => None
        | String e rest1 =>
            if Ascii.eqb e "u" then
              match rest1 with
              | String h1 (String h2 (String h3 (String h4 rest2))) =>
                  match unicode_escape h1 h2 h3 h4 with
                  | Some c' => cons_char c' (parse_string_chars rest2)
                  | None => None
                  end
              | _ => None
              end
            else
              match unescape e with
              | Some c' => cons_char c' (parse_string_chars rest1)
              | None => None
              end
        end
      else if (N_of_ascii c <? 32)%N then None
      else cons_char c (parse_string_chars rest)
  end.

Definition is_number_char (c : ascii) : bool :=
  let n := N_of_ascii c in
  ((n =? 45) || ((48 <=? n) && (n <=? 57)))%N.

Fixpoint span_number (s : string) : string * string :=
  match s with
  | EmptyString => ("", "")
  | String c rest =>
      if is_number_char c
      then let (lexeme, rest') := span_number rest in (String c lexeme, rest')
      else ("", s)
  end.

Definition unsigned_part (d : Decimal.int) : Decimal.uint :=
  match d with
  | Decimal.Pos u => u
  | Decimal.Neg u => u
  end.

(** What follows the integer part of a number that has more to it. *)
Definition starts_fraction (s : string) : bool :=
  match s with
  | String c _ => Ascii.eqb c "." || Ascii.eqb c "e" || Ascii.eqb c "E"
  | EmptyString => false
  end.

(** An integer: an optional minus sign and digits with no leading zero. *)
Definition parse_number (s : string) : option (json * string) :=
  let (lexeme, rest) := span_number s in
  match NilZero.int_of_string lexeme with
  | Some d =>
      if Decimal.uint_eq_dec (Decimal.unorm (unsigned_part d)) (unsigned_part d)
      then if starts_fraction rest then None else Some (JNum (Z.of_int d), rest)
      else None
  | None => None
  end.

Fixpoint expect (word s : string) : option string :=
  match word, s with
  | EmptyString, _ => Some s
  | String a word', String b s' => if Ascii.eqb a b then expect word' s' else None
  | String _ _, EmptyString => None
  end.

(** [obj[k] = v] while an object literal is read: a repeated key keeps
    its place and takes the later value. *)
Fixpoint set_prop (k : string) (v : json) (props : list (string * json))
  : list (string * json) :=
  match props with
  | [] => [(k, v)]
  | (k', v') :: rest =>
      if String.eqb k k' then (k', v) :: rest else (k', v') :: set_prop k v rest
  end.

Fixpoint parse_value (fuel : nat) (s : string) : option (json * string) :=
  match fuel with
  | O => None
  | S fuel =>
      match skip_ws s with
      | EmptyString => None
      | String c rest =>
          if is_number_char c then parse_number (String c rest)
          else if Ascii.eqb c quote then
            match parse_string_chars rest with
            | Some (str, rest') => Some (JStr str, rest')
            | None => None
            end
          else if Ascii.eqb c "[" then
            match skip_ws rest with
            | String c' rest' =>
                if Ascii.eqb c' "]" then Some (JArr [], rest')
                else parse_elements fuel rest []
            | EmptyString => None
            end
          else if Ascii.eqb c "{" then
            match skip_ws rest with
            | String c' rest' =>
                if Ascii.eqb c' "}" then Some (JObj [], rest')
                else parse_members fuel rest []
            | EmptyString => None
            end
          else if Ascii.eqb c "n" then option_map (pair JNull) (expect "ull" rest)
          else if Ascii.eqb c "t" then option_map (pair (JBool true)) (expect "rue" rest)
          else if Ascii.eqb c "f" then option_map (pair (JBool false)) (expect "alse" rest)
          else None
      end
  end
with parse_elements (fuel : nat) (s : string) (acc : list json) : option (json * string) :=
  match fuel with
  | O => None
  | S fuel =>
      match parse_value fuel s with
      | Some (v, rest) =>
          match skip_ws rest with
          | String c rest' =>
              if Ascii.eqb c "," then parse_elements fuel rest' (acc ++ [v])
              else if Ascii.eqb c "]" then Some (JArr (acc ++ [v]), rest')
              else None
          | EmptyString => None
          end
      | None => None
      end
  end
with parse_members (fuel : nat) (s : string) (acc : list (string * json))
  : option (json * string) :=
  match fuel with
  | O => None
  | S fuel =>
      match skip_ws s with
      | String q rest =>
          if Ascii.eqb q quote then
            match parse_string_chars rest with
            | Some (k, rest1) =>
                match skip_ws rest1 with
                | String c rest2 =>
                    if Ascii.eqb c ":" then
                      match parse_value fuel rest2 with
                      | Some (v, rest3) =>
                          match skip_ws rest3 with
                          | String c' rest4 =>
                              if Ascii.eqb c' "," then parse_members fuel rest4 (set_prop k v acc)
                              else if Ascii.eqb c' "}" then Some (JObj (set_prop k v acc), rest4)
                              else None
                          | EmptyString => None
                          end
                      | None => None
                      end
                    else None
                | EmptyString => None
                end
            | None => None
            end
          else None
      | EmptyString => None
      end
  end.

(** The text of a user record and of a list of them, as [stringify]
    lays them out, and the shape of a number's text. *)
Definition user_text (u : User.t) (rest : string) : string :=
  String "{"
    (print_string "id" +:+ String ":"
       (Number_toString (User.id u) +:+ String ","
          (print_string "name" +:+ String ":"
             (print_string (User.name u) +:+ String "}" rest)))).

Definition users_text (l : list User.t) : string :=
  join (List.map stringify (of_user <$> l)).

Fixpoint all_number_chars (s : string) : bool :=
  match s with
  | EmptyString => true
  | String c rest => is_number_char c && all_number_chars rest
  end.

Definition ends_number (rest : string) : bool :=
  match rest with
  | EmptyString => true
  | String c _ => negb (is_number_char c)
  end.

Definition SyntaxError : Thrown :=
  ThrownError {| Js.name := "SyntaxError"; Js.message := "JSON Parse error" |}.

(** One value, with nothing but white space after it. *)
Definition parse (s : string) : Completion json :=
  match parse_value (String.length s + 8) s with
  | Some (v, rest) =>
      match skip_ws rest with
      | EmptyString => Normal v
      | String _ _ => Throw SyntaxError
      end
  | None => Throw SyntaxError
  end.

End RefJSON.

#[export] Instance reference_JSON : JSON :=
  {| JSON_parse := RefJSON.parse; JSON_stringify := RefJSON.stringify |}.

(** ** Notions the properties are stated with *)

Definition ids (l : list User.t) : list Z := User.id <$> l.

(** Index of the first element a test accepts. *)
Fixpoint first_index {A} (f : A -> bool) (l : list A) : option nat :=
  match l with
  | [] => None
  | x :: rest => if f x then Some O else S <$> first_index f rest
  end.

(** [update(u)] on a collection [l], in the words of the specification:
    when a record with the identifier of [u] is present, that record (the
    first one, should there be several) is replaced by [u] and every other
    record and the length stay; when none is present, nothing changes. *)
Definition updated (l : list User.t) (u : User.t) (l' : list User.t) : Prop :=
  length l' = length l /\
  (User.id u ∈ ids l ->
     exists i v,
       l !! i = Some v /\ User.id v = User.id u /\
       (forall j v', (j < i)%nat -> l !! j = Some v' -> User.id v' <> User.id u) /\
       l' !! i = Some u /\
       (forall j, j <> i -> l' !! j = l !! j)) /\
  (User.id u ∉ ids l -> l' = l).

(** The store takes every write under a key. *)
Definition writable (key : string) (w : World) : Prop :=
  forall value, quota_exceeded (localStorage w) key value = None.

Definition available (w : World) : Prop := unavailable (localStorage w) = None.

(** An effect that never ends in a typed failure, on any platform. *)
Definition never_fails {A E} (eff : Effect A E) : Prop :=
  forall w e, fst (eff w) <> Failure e.

(** An effect that ends in success on a given platform. *)
Definition succeeds_on {A E} (eff : Effect A E) (w : World) : Prop :=
  exists a w', eff w = (Success a, w').

(** ** Platforms for the examples *)

(** A store that cannot be used: every access throws. *)
Definition broken_storage : Storage :=
  {| items := ∅; unavailable := Some ThrownOther; quota_exceeded := fun _ _ => None |}.

(** A [JSON] whose parser throws on every text. *)
Definition throwing_JSON : JSON :=
  {| JSON_parse := fun _ => Throw RefJSON.SyntaxError;
     JSON_stringify := fun _ => "" |}.

(** A usable store that holds one item and takes every write. *)
Definition storage_with (key value : string) : Storage :=
  {| items := {[ key := value ]};
     unavailable := None;
     quota_exceeded := fun _ _ => None |}.

(** The three lines the demos of the unnamed scripts print. *)
Definition three_lines (user1 user2 : option json) (all : json) (w : World) : World :=
  add_line ("all", Some all) (add_line ("user2", user2) (add_line ("user1", user1) w)).

(** What [update] makes of a list of user records: [user] in the place
    of the first record with its identifier, the list itself when there is
    none. *)
Definition replace_first (user : User.t) (l : list User.t) : list User.t :=
  match first_index (fun v => User.id v =? User.id user) l with
  | Some i => <[i := user]> l
  | None => l
  end.


(** A text begins with another. *)
Definition starts_with (prefix s : string) : Prop := exists rest, s = prefix +:+ rest.

(** * Properties *)

(** ** The reference [JSON] reads back what it writes *)

Module RefJSONFacts.
Import RefJSON.

Lemma append_cons (x : ascii) (a b : string) : String x a +:+ b = String x (a +:+ b).
Proof. reflexivity. Qed.

Lemma append_assoc (a b c : string) : (a +:+ b) +:+ c = a +:+ (b +:+ c).
Proof.
  induction a as [|x a IH]; [reflexivity|].
  rewrite !append_cons, IH. reflexivity.
Qed.

Lemma parse_escape_char (c : ascii) (rest : string) :
  parse_string_chars (escape_char c +:+ rest) = cons_char c (parse_string_chars rest).
Proof.
  destruct c as [[|] [|] [|] [|] [|] [|] [|] [|]]; reflexivity.
Qed.

Lemma parse_escape (s rest : string) :
  parse_string_chars (escape s +:+ String quote rest) = Some (s, rest).
Proof.
  induction s as [|c s IH].
  - reflexivity.
  - change (escape (String c s)) with (escape_char c +:+ escape s).
    rewrite append_assoc, parse_escape_char, IH. reflexivity.
Qed.

Lemma parse_print_string (s rest : string) (fuel : nat) :
  parse_value (S fuel) (print_string s +:+ rest) = Some (JStr s, rest).
Proof.
  unfold print_string.
  change (parse_value (S fuel) (String quote ((escape s +:+ String quote "") +:+ rest))
          = Some (JStr s, rest)).
  rewrite append_assoc.
  change (match parse_string_chars (escape s +:+ String quote rest) with
          | Some (str, rest') => Some (JStr str, rest')
          | None => None
          end = Some (JStr s, rest)).
  rewrite parse_escape. reflexivity.
Qed.

(** *** Numbers *)

Lemma span_number_app (lexeme rest : string) :
  all_number_chars lexeme = true ->
  ends_number rest = true ->
  span_number (lexeme +:+ rest) = (lexeme, rest).
Proof.
  intros Hall Hend. induction lexeme as [|c lexeme IH]; simpl in *.
  - destruct rest as [|c rest]; simpl in *; [reflexivity|].
    destruct (is_number_char c); [discriminate | reflexivity].
  - apply andb_prop in Hall as [Hc Hall].
    rewrite Hc, (IH Hall). reflexivity.
Qed.

Lemma digits_number_chars (d : Decimal.uint) :
  all_number_chars (NilEmpty.string_of_uint d) = true.
Proof. induction d; simpl; auto. Qed.

Lemma to_int_number_chars (n : Z) :
  all_number_chars (Number_toString n) = true.
Proof.
  unfold Number_toString.
  destruct (Z.to_int n) as [d|d]; simpl; destruct d; simpl;
    auto using digits_number_chars.
Qed.

Lemma to_uint_normal (p : positive) :
  Decimal.unorm (Pos.to_uint p) = Pos.to_uint p.
Proof.
  change (Pos.to_uint p) with (N.to_uint (Npos p)).
  rewrite <- (DecimalN.Unsigned.of_to (Npos p)) at 2.
  symmetry. apply DecimalN.Unsigned.to_of.
Qed.

Lemma to_int_normal (n : Z) :
  Decimal.unorm (unsigned_part (Z.to_int n)) = unsigned_part (Z.to_int n).
Proof. destruct n; simpl; [reflexivity | apply to_uint_normal ..]. Qed.

Lemma int_of_Number_toString (n : Z) :
  NilZero.int_of_string (Number_toString n) = Some (Z.to_int n).
Proof.
  unfold Number_toString. apply NilZero.isi.
  - destruct n; simpl; [discriminate | |discriminate].
    intros [= H]. now apply DecimalPos.Unsigned.to_uint_nonnil in H.
  - destruct n; simpl; [discriminate | discriminate |].
    intros [= H]. now apply DecimalPos.Unsigned.to_uint_nonnil in H.
Qed.

Lemma parse_number_print (n : Z) (rest : string) :
  ends_number rest = true ->
  starts_fraction rest = false ->
  parse_number (Number_toString n +:+ rest) = Some (JNum n, rest).
Proof.
  intros Hend Hfrac. unfold parse_number.
  rewrite (span_number_app _ _ (to_int_number_chars n) Hend).
  rewrite int_of_Number_toString.
  destruct (Decimal.uint_eq_dec _ _) as [_|Hne].
  - rewrite Hfrac, DecimalZ.of_to. reflexivity.
  - destruct Hne. apply to_int_normal.
Qed.

Lemma Number_toString_head (n : Z) :
  exists c s, Number_toString n = String c s /\ is_number_char c = true.
Proof.
  pose proof (to_int_number_chars n) as Hall.
  pose proof (int_of_Number_toString n) as Hint.
  destruct (Number_toString n) as [|c s]; simpl in *; [discriminate|].
  apply andb_prop in Hall as [Hc _]. eauto.
Qed.

Lemma number_char_not_ws (c : ascii) : is_number_char c = true -> is_ws c = false.
Proof.
  destruct c as [[|] [|] [|] [|] [|] [|] [|] [|]]; cbv; congruence.
Qed.

Lemma skip_ws_head (c : ascii) (s : string) :
  is_ws c = false -> skip_ws (String c s) = String c s.
Proof. intros H. cbn [skip_ws]. now rewrite H. Qed.

Lemma parse_value_number (n : Z) (rest : string) (fuel : nat) :
  ends_number rest = true ->
  starts_fraction rest = false ->
  parse_value (S fuel) (Number_toString n +:+ rest) = Some (JNum n, rest).
Proof.
  intros Hend Hfrac.
  pose proof (parse_number_print n rest Hend Hfrac) as Hparse.
  destruct (Number_toString_head n) as (c & s & Heq & Hc).
  rewrite Heq, append_cons in *.
  cbn [parse_value].
  rewrite (skip_ws_head c _ (number_char_not_ws c Hc)), Hc. exact Hparse.
Qed.

(** *** Objects and arrays of users *)

Lemma append_nil_l (s : string) : "" +:+ s = s.
Proof. reflexivity. Qed.

Ltac norm_append :=
  repeat (rewrite append_assoc || rewrite append_cons || rewrite append_nil_l).

Lemma length_append (a b : string) :
  String.length (a +:+ b) = (String.length a + String.length b)%nat.
Proof.
  induction a as [|x a IH]; [reflexivity|].
  rewrite append_cons. cbn [String.length]. now rewrite IH.
Qed.

Lemma parse_value_object (fuel : nat) (k s : string) :
  parse_value (S fuel) (String "{" (print_string k +:+ s)) =
    parse_members fuel (print_string k +:+ s) [].
Proof. reflexivity. Qed.

Lemma parse_value_array (fuel : nat) (s : string) :
  parse_value (S fuel) (String "[" s) =
    match skip_ws s with
    | String c' rest' =>
        if Ascii.eqb c' "]" then Some (JArr [], rest') else parse_elements fuel s []
    | EmptyString => None
    end.
Proof. reflexivity. Qed.

Lemma parse_members_key (fuel : nat) (k rest : string) (acc : list (string * json)) :
  parse_members (S fuel) (print_string k +:+ String ":" rest) acc =
    match parse_value fuel rest with
    | Some (v, rest3) =>
        match skip_ws rest3 with
        | String c' rest4 =>
            if Ascii.eqb c' "," then parse_members fuel rest4 (set_prop k v acc)
            else if Ascii.eqb c' "}" then Some (JObj (set_prop k v acc), rest4)
            else None
        | EmptyString => None
        end
    | None => None
    end.
Proof.
  unfold print_string. norm_append.
  change (parse_members (S fuel) (String quote (escape k +:+ String quote (String ":" rest))) acc)
    with (match parse_string_chars (escape k +:+ String quote (String ":" rest)) with
          | Some (k, rest1) =>
              match skip_ws rest1 with
              | String c rest2 =>
                  if Ascii.eqb c ":" then
                    match parse_value fuel rest2 with
                    | Some (v, rest3) =>
                        match skip_ws rest3 with
                        | String c' rest4 =>
                            if Ascii.eqb c' "," then parse_members fuel rest4 (set_prop k v acc)
                            else if Ascii.eqb c' "}" then Some (JObj (set_prop k v acc), rest4)
                            else None
                        | EmptyString => None
                        end
                    | None => None
                    end
                  else None
              | EmptyString => None
              end
          | None => None
          end).
  rewrite parse_escape. reflexivity.
Qed.

Lemma stringify_user (u : User.t) (rest : string) :
  stringify (of_user u) +:+ rest = user_text u rest.
Proof.
  unfold of_user, user_text. cbn [stringify List.map join fst snd].
  norm_append. reflexivity.
Qed.

Lemma parse_user (u : User.t) (rest : string) (fuel : nat) :
  parse_value (4 + fuel) (stringify (of_user u) +:+ rest) = Some (of_user u, rest).
Proof.
  rewrite stringify_user. unfold user_text.
  change (4 + fuel)%nat with (S (S (S (S fuel)))).
  rewrite parse_value_object, parse_members_key.
  rewrite parse_value_number by reflexivity.
  change (skip_ws (String "," ?s)) with (String "," s).
  change (Ascii.eqb "," ",") with true. cbv iota.
  rewrite parse_members_key, parse_print_string.
  reflexivity.
Qed.

Lemma users_text_cons (u u' : User.t) (l : list User.t) (rest : string) :
  users_text (u :: u' :: l) +:+ rest =
    stringify (of_user u) +:+ String "," (users_text (u' :: l) +:+ rest).
Proof.
  unfold users_text. cbn [fmap list_fmap List.map join].
  norm_append. reflexivity.
Qed.

Lemma skip_ws_user (u : User.t) (rest : string) :
  skip_ws (stringify (of_user u) +:+ rest) = stringify (of_user u) +:+ rest.
Proof. rewrite stringify_user. reflexivity. Qed.

Lemma parse_users_elements (l : list User.t) :
  forall (u : User.t) (acc : list json) (rest : string) (fuel : nat),
    (length l + 5 <= fuel)%nat ->
    parse_elements fuel (users_text (u :: l) +:+ String "]" rest) acc =
      Some (JArr (acc ++ (of_user <$> (u :: l))), rest).
Proof.
  induction l as [|u' l IH]; intros u acc rest fuel Hfuel.
  - destruct fuel as [|fuel]; [simpl length in Hfuel; lia|].
    cbn [parse_elements].
    replace fuel with (4 + (fuel - 4))%nat by (simpl length in Hfuel; lia).
    change (users_text [u]) with (stringify (of_user u)).
    rewrite parse_user. reflexivity.
  - destruct fuel as [|fuel]; [simpl length in Hfuel; lia|].
    cbn [parse_elements].
    rewrite users_text_cons.
    replace fuel with (4 + (fuel - 4))%nat at 1 by (simpl length in Hfuel; lia).
    rewrite parse_user.
    change (skip_ws (String "," ?s)) with (String "," s).
    change (Ascii.eqb "," ",") with true. cbv iota.
    rewrite IH by (simpl length in *; lia).
    rewrite <- app_assoc. reflexivity.
Qed.

Lemma append_nil_r (s : string) : s +:+ "" = s.
Proof.
  induction s as [|x s IH]; [reflexivity|].
  rewrite append_cons, IH. reflexivity.
Qed.

Lemma stringify_user_length (u : User.t) :
  (1 <= String.length (stringify (of_user u)))%nat.
Proof.
  rewrite <- (append_nil_r (stringify (of_user u))), stringify_user.
  unfold user_text. cbn [String.length]. lia.
Qed.

Lemma users_text_length (l : list User.t) :
  (length l <= String.length (users_text l))%nat.
Proof.
  induction l as [|u l IH]; [simpl length; lia|].
  pose proof (stringify_user_length u) as Hu.
  destruct l as [|u' l].
  - change (users_text [u]) with (stringify (of_user u)). simpl length. lia.
  - rewrite <- (append_nil_r (users_text (u :: u' :: l))).
    rewrite users_text_cons, append_nil_r, length_append.
    cbn [String.length]. simpl length in *. lia.
Qed.

Lemma stringify_users (l : list User.t) :
  stringify (of_users l) = String "[" (users_text l +:+ String "]" "").
Proof.
  unfold of_users, users_text. cbn [stringify].
  norm_append. reflexivity.
Qed.

Lemma parse_stringify_users (l : list User.t) :
  parse (stringify (of_users l)) = Normal (of_users l).
Proof.
  unfold parse. rewrite stringify_users.
  destruct l as [|u l].
  - reflexivity.
  - assert (exists fuel,
              (String.length (String "[" (users_text (u :: l) +:+ String "]" "")) + 8
               = S fuel)%nat /\ (length l + 5 <= fuel)%nat) as (fuel & -> & Hfuel).
    { eexists. split.
      - cbn [String.length]. rewrite Nat.add_succ_l. reflexivity.
      - pose proof (users_text_length (u :: l)) as Hlen.
        rewrite length_append. simpl length in Hlen. lia. }
    assert (parse_value (S fuel) (String "[" (users_text (u :: l) +:+ String "]" ""))
            = parse_elements fuel (users_text (u :: l) +:+ String "]" "") []) as ->.
    { destruct l as [|u' l].
      - change (users_text [u]) with (stringify (of_user u)).
        rewrite stringify_user. reflexivity.
      - rewrite users_text_cons, stringify_user. reflexivity. }
    rewrite parse_users_elements by exact Hfuel.
    reflexivity.
Qed.

Lemma parse_stringify_user (u : User.t) :
  parse (stringify (of_user u)) = Normal (of_user u).
Proof.
  unfold parse.
  pose proof (parse_user u "" (String.length (stringify (of_user u)) + 4)) as H.
  rewrite append_nil_r in H.
  replace (String.length (stringify (of_user u)) + 8)%nat
    with (4 + (String.length (stringify (of_user u)) + 4))%nat by lia.
  rewrite H. reflexivity.
Qed.

Lemma stringify_nonempty (v : json) : stringify v <> "".
Proof.
  destruct v as [| [|] | n | s | l | props]; try discriminate.
  cbn [stringify]. destruct (Number_toString_head n) as (c & s & -> & _).
  discriminate.
Qed.

End RefJSONFacts.

#[export] Instance reference_JSONLaws : JSONLaws reference_JSON.
Proof.
  split.
  - exact RefJSONFacts.stringify_nonempty.
  - intros v [u|l].
    + exact (RefJSONFacts.parse_stringify_user u).
    + exact (RefJSONFacts.parse_stringify_users l).
Qed.

(** ** Arrays *)

Section Arrays.
Context {A : Type}.

Lemma Array_find_pure (f : A -> bool) (l : list A) :
  Array_find (fun x => Normal (f x)) l = Normal (List.find f l).
Proof.
  induction l as [|x l IH]; simpl; [reflexivity|].
  destruct (f x); [reflexivity | exact IH].
Qed.

Lemma Array_findIndex_from_pure (f : A -> bool) (l : list A) (from : Z) :
  Array_findIndex_from (fun x => Normal (f x)) from l =
    Normal (match first_index f l with
            | Some i => from + Z.of_nat i
            | None => -1
            end).
Proof.
  revert from. induction l as [|x l IH]; intros from; simpl; [reflexivity|].
  destruct (f x).
  - f_equal. lia.
  - rewrite IH. destruct (first_index f l); simpl; f_equal; lia.
Qed.

Lemma Array_findIndex_pure (f : A -> bool) (l : list A) :
  Array_findIndex (fun x => Normal (f x)) l =
    Normal (match first_index f l with
            | Some i => Z.of_nat i
            | None => -1
            end).
Proof.
  unfold Array_findIndex. rewrite Array_findIndex_from_pure.
  destruct (first_index f l); reflexivity.
Qed.

Lemma first_index_Some (f : A -> bool) (l : list A) (i : nat) :
  first_index f l = Some i ->
  exists x, l !! i = Some x /\ f x = true /\
            forall j y, (j < i)%nat -> l !! j = Some y -> f y = false.
Proof.
  revert i. induction l as [|x l IH]; intros i; simpl; [discriminate|].
  destruct (f x) eqn:Hx.
  - intros [= <-]. exists x. repeat split; auto. intros j y Hj. lia.
  - destruct (first_index f l) as [k|]; simpl; [|discriminate].
    intros [= <-]. destruct (IH k eq_refl) as (y & Hy & Hfy & Hbefore).
    exists y. repeat split; auto.
    intros [|j] z Hj; simpl.
    + intros [= <-]. exact Hx.
    + apply Hbefore. lia.
Qed.

Lemma first_index_None (f : A -> bool) (l : list A) :
  first_index f l = None -> forall x, x ∈ l -> f x = false.
Proof.
  induction l as [|x l IH]; simpl; intros H y Hy.
  - inversion Hy.
  - destruct (f x) eqn:Hx; [discriminate|].
    destruct (first_index f l); [discriminate|].
    apply elem_of_cons in Hy as [->|Hy]; auto.
Qed.

Lemma find_Some_elem (f : A -> bool) (l : list A) (x : A) :
  List.find f l = Some x -> x ∈ l /\ f x = true.
Proof.
  intros H. apply List.find_some in H as [Hin Hf].
  split; [now apply list_elem_of_In | exact Hf].
Qed.

Lemma find_None_elem (f : A -> bool) (l : list A) :
  List.find f l = None -> forall x, x ∈ l -> f x = false.
Proof.
  intros H x Hx. apply (List.find_none f l H). now apply list_elem_of_In.
Qed.

Lemma find_is_Some (f : A -> bool) (l : list A) (x : A) :
  x ∈ l -> f x = true -> exists y, List.find f l = Some y.
Proof.
  intros Hx Hf. destruct (List.find f l) as [y|] eqn:Hfind; [eauto|].
  rewrite (find_None_elem f l Hfind x Hx) in Hf. discriminate.
Qed.

End Arrays.

(** ** Users as run-time objects *)

Lemma of_user_inj (u v : User.t) : of_user u = of_user v -> u = v.
Proof. destruct u, v. unfold of_user. simpl. congruence. Qed.

Lemma of_users_inj (l l' : list User.t) : of_users l = of_users l' -> l = l'.
Proof.
  unfold of_users. intros [= H]. revert l' H.
  induction l as [|u l IH]; intros [|v l']; simpl; try discriminate; [reflexivity|].
  destruct u as [i n], v as [i' n']. unfold of_user. simpl.
  intros [= -> -> Hl]. f_equal. now apply IH.
Qed.

Lemma has_id_of_user (id : Z) (u : User.t) :
  has_id id (of_user u) = Normal (User.id u =? id).
Proof. reflexivity. Qed.

Lemma Array_find_of_users (id : Z) (l : list User.t) :
  Array_find (has_id id) (of_user <$> l) =
    Normal (of_user <$> List.find (fun u => User.id u =? id) l).
Proof.
  induction l as [|u l IH]; [reflexivity|].
  rewrite fmap_cons. cbn [Array_find List.find]. rewrite has_id_of_user.
  destruct (User.id u =? id); [reflexivity | exact IH].
Qed.

Lemma Array_findIndex_from_of_users (id from : Z) (l : list User.t) :
  Array_findIndex_from (has_id id) from (of_user <$> l) =
    Normal (match first_index (fun u => User.id u =? id) l with
            | Some i => from + Z.of_nat i
            | None => -1
            end).
Proof.
  rewrite <- Array_findIndex_from_pure. revert from.
  induction l as [|u l IH]; intros from; [reflexivity|].
  rewrite fmap_cons. cbn [Array_findIndex_from]. rewrite has_id_of_user.
  cbv beta.
  destruct (User.id u =? id); [reflexivity | apply IH].
Qed.

Lemma id_elem_of_ids (l : list User.t) (id : Z) :
  id ∈ ids l <-> exists u, u ∈ l /\ User.id u = id.
Proof.
  unfold ids. rewrite list_elem_of_fmap. split; intros (u & H1 & H2); eauto.
Qed.

Lemma find_id_present (l : list User.t) (id : Z) :
  id ∈ ids l ->
  exists u, List.find (fun u => User.id u =? id) l = Some u /\ u ∈ l /\ User.id u = id.
Proof.
  intros (v & Hv & Hid)%id_elem_of_ids.
  destruct (find_is_Some (fun u => User.id u =? id) l v Hv) as [u Hu].
  { now apply Z.eqb_eq. }
  exists u. split; [exact Hu|].
  apply find_Some_elem in Hu as [Hin Heq]. split; [exact Hin | now apply Z.eqb_eq].
Qed.

Lemma find_id_absent (l : list User.t) (id : Z) :
  id ∉ ids l -> List.find (fun u => User.id u =? id) l = None.
Proof.
  intros Habs. destruct (List.find _ l) as [u|] eqn:Hfind; [|reflexivity].
  apply find_Some_elem in Hfind as [Hin Heq]. destruct Habs.
  apply id_elem_of_ids. exists u. split; [exact Hin | now apply Z.eqb_eq].
Qed.

(** The two ways [update] can come out, against the specification's
    words. *)
Lemma updated_replace (l : list User.t) (u : User.t) (i : nat) :
  first_index (fun v => User.id v =? User.id u) l = Some i ->
  updated l u (<[i := u]> l).
Proof.
  intros (v & Hv & Hid & Hbefore)%first_index_Some.
  apply Z.eqb_eq in Hid.
  split; [apply length_insert|]. split.
  - intros _. exists i, v. repeat split; auto.
    + intros j v' Hj Hj'. apply Z.eqb_neq. eauto.
    + apply list_lookup_insert_eq. now apply lookup_lt_Some in Hv.
    + intros j Hj. now apply list_lookup_insert_ne.
  - intros Habs. destruct Habs. apply id_elem_of_ids. exists v.
    split; [|exact Hid]. apply list_elem_of_lookup. eauto.
Qed.

Lemma updated_absent (l : list User.t) (u : User.t) :
  first_index (fun v => User.id v =? User.id u) l = None ->
  updated l u l.
Proof.
  intros Hnone. split; [reflexivity|]. split; [|reflexivity].
  intros (v & Hv & Hid)%id_elem_of_ids.
  pose proof (first_index_None _ _ Hnone v Hv) as Hf. simpl in Hf.
  apply Z.eqb_neq in Hf. contradiction.
Qed.

Lemma first_index_lt {A} (f : A -> bool) (l : list A) (i : nat) :
  first_index f l = Some i -> (i < length l)%nat.
Proof.
  intros (x & Hx & _)%first_index_Some. now apply lookup_lt_Some in Hx.
Qed.

(** ** The permissive store and the repositories over it *)

Module Part001Facts.
Section Facts.
Context {J : JSON}.
Import Part001.

Local Abbreviation store := localStorageServiceLive.
Local Abbreviation persisted := (userLocalStorageRepository_of localStorageServiceLive).
Local Abbreviation inMemory := inMemoryUserRepository_of.

Lemma getItem_run (key : string) (w : World) :
  getItem store key w =
    match unavailable (localStorage w) with
    | Some t => (Failure (LocalStorageError.parseError t), w)
    | None =>
        if truthy_item (items (localStorage w) !! key)
        then match JSON_parse (default "null" (items (localStorage w) !! key)) with
             | Normal v => (Success (Some v), w)
             | Throw t => (Failure (LocalStorageError.parseError t), w)
             end
        else (Success None, w)
    end.
Proof.
  cbn [getItem localStorageServiceLive].
  unfold Effect.try_, getItem_try, Block.bind, localStorage_getItem.
  destruct (unavailable (localStorage w)); [reflexivity|].
  destruct (truthy_item _); cbn; [|reflexivity].
  unfold Block.of_completion. destruct (JSON_parse _); reflexivity.
Qed.

Lemma getItem_cases (key : string) (w : World) :
  (exists v, getItem store key w = (Success v, w)) \/
  (exists e, getItem store key w = (Failure e, w)).
Proof.
  rewrite getItem_run.
  destruct (unavailable _); [right; eauto|].
  destruct (truthy_item _); [|left; eauto].
  destruct (JSON_parse _); [left | right]; eauto.
Qed.

Lemma setItem_run (key : string) (value : json) (w : World) :
  setItem store key value w =
    match unavailable (localStorage w) with
    | Some t => (Failure (LocalStorageError.stringifyError t), w)
    | None =>
        match quota_exceeded (localStorage w) key (JSON_stringify value) with
        | Some t => (Failure (LocalStorageError.stringifyError t), w)
        | None => (Success tt, set_items (insert key (JSON_stringify value)) w)
        end
    end.
Proof.
  cbn [setItem localStorageServiceLive].
  unfold Effect.try_, setItem_try, Block.bind, Block.ret, localStorage_setItem.
  destruct (unavailable (localStorage w)); [reflexivity|].
  destruct (quota_exceeded _ _ _); reflexivity.
Qed.

Lemma setItem_cases (key : string) (value : json) (w : World) :
  (exists w', setItem store key value w = (Success tt, w')) \/
  (exists e, setItem store key value w = (Failure e, w)).
Proof.
  rewrite setItem_run.
  destruct (unavailable _); [right; eauto|].
  destruct (quota_exceeded _ _ _); [right | left]; eauto.
Qed.

(** [findAll], [findById] and [update] in terms of what [getItem] and
    [setItem] answer. *)
Lemma findAll_run (w : World) :
  findAll persisted w =
    match getItem store "users" w with
    | (Success v, w') => (Success (or_empty v), w')
    | (Failure _, w') => (Success (JArr []), w')
    | (Die t, w') => (Die t, w')
    end.
Proof.
  cbn [findAll userLocalStorageRepository_of].
  unfold Effect.catchAll, Effect.map, Effect.succeed.
  destruct (getItem store "users" w) as [[v|e|t] w']; reflexivity.
Qed.

Lemma findById_run (id : Z) (w : World) :
  findById persisted id w =
    match findAll persisted w with
    | (Success users, w') =>
        match call_find users (has_id id) with
        | Normal user => (Success user, w')
        | Throw t => (Die t, w')
        end
    | (Failure e, w') => (Failure e, w')
    | (Die t, w') => (Die t, w')
    end.
Proof.
  cbn [findById findAll userLocalStorageRepository_of].
  unfold Effect.map at 1. reflexivity.
Qed.

Lemma update_run (user : User.t) (w : World) :
  update persisted user w =
    match getItem store "users" w with
    | (Success v, w1) =>
        match replace_user user (or_empty v) with
        | Normal users' =>
            match setItem store "users" users' w1 with
            | (Success _, w2) => (Success tt, w2)
            | (Failure _, w2) => (Success tt, w2)
            | (Die t, w2) => (Die t, w2)
            end
        | Throw t => (Die t, w1)
        end
    | (Failure _, w1) => (Success tt, w1)
    | (Die t, w1) => (Die t, w1)
    end.
Proof.
  cbn [update userLocalStorageRepository_of].
  unfold Effect.catchAll, Effect.flatMap, Effect.map, Effect.succeed.
  destruct (getItem store "users" w) as [[v|e|t] w1]; try reflexivity.
  destruct (replace_user user (or_empty v)); [|reflexivity].
  destruct (setItem store "users" a w1) as [[[]|e|t] w2]; reflexivity.
Qed.

Lemma findAll_never_fails : never_fails (findAll persisted).
Proof.
  intros w e. rewrite findAll_run.
  destruct (getItem_cases "users" w) as [[v ->]|[e' ->]]; discriminate.
Qed.

Lemma findById_never_fails (id : Z) : never_fails (findById persisted id).
Proof.
  intros w e. rewrite findById_run.
  pose proof (findAll_never_fails w) as Hall.
  destruct (findAll persisted w) as [[users|e'|t] w']; simpl in *.
  - destruct (call_find users (has_id id)); discriminate.
  - destruct (Hall e' eq_refl).
  - discriminate.
Qed.

Lemma update_never_fails (user : User.t) : never_fails (update persisted user).
Proof.
  intros w e. rewrite update_run.
  destruct (getItem_cases "users" w) as [[v ->]|[e' ->]]; [|discriminate].
  destruct (replace_user user (or_empty v)) as [users'|t]; [|discriminate].
  destruct (setItem_cases "users" users' w) as [[w' ->]|[e' ->]]; discriminate.
Qed.

(** The replacement [update] computes, on an array of user records. *)
Lemma replace_user_of_users (user : User.t) (l : list User.t) :
  replace_user user (of_users l) =
    Normal (of_users
              (match first_index (fun v => User.id v =? User.id user) l with
               | Some i => <[i := user]> l
               | None => l
               end)).
Proof.
  unfold replace_user, of_users. cbn [call_findIndex].
  unfold Array_findIndex. rewrite Array_findIndex_from_of_users.
  destruct (first_index _ l) as [i|] eqn:Hi; [|reflexivity].
  replace (0 + Z.of_nat i =? -1) with false by (symmetry; apply Z.eqb_neq; lia).
  unfold slice_to, slice_from.
  replace (Z.to_nat (0 + Z.of_nat i)) with i by lia.
  replace (Z.to_nat (0 + Z.of_nat i + 1)) with (S i) by lia.
  do 2 f_equal.
  rewrite (insert_take_drop l i user) by (eapply first_index_lt; eauto).
  rewrite fmap_app, fmap_cons, fmap_take, fmap_drop. reflexivity.
Qed.

Lemma or_empty_of_users (l : list User.t) : or_empty (Some (of_users l)) = of_users l.
Proof. reflexivity. Qed.

End Facts.
End Part001Facts.

(** ** The strict store and the repositories over it *)

Module Part000Facts.
Section Facts.
Context {J : JSON}.
Import Part000.

Local Abbreviation store := localStorageServiceLive.
Local Abbreviation persisted := userLocalStorageRepositoryLive.

Lemma strict_getItem_run (key : string) (w : World) :
  getItem store key w =
    match unavailable (localStorage w) with
    | Some t => (Failure (LocalStorageError.parseError t), w)
    | None =>
        if truthy_item (items (localStorage w) !! key)
        then match JSON_parse (default "null" (items (localStorage w) !! key)) with
             | Normal v => (Success v, w)
             | Throw t => (Failure (LocalStorageError.parseError t), w)
             end
        else (Failure (LocalStorageError.parseError
                         (ThrownError (LocalStorageError.NotFound key))), w)
    end.
Proof.
  cbn [getItem localStorageServiceLive].
  unfold Effect.try_, getItem_try, Block.bind, localStorage_getItem.
  destruct (unavailable (localStorage w)); [reflexivity|].
  destruct (truthy_item _); cbn; [|reflexivity].
  unfold Block.of_completion. destruct (JSON_parse _); reflexivity.
Qed.

Lemma strict_getItem_cases (key : string) (w : World) :
  (exists v, getItem store key w = (Success v, w)) \/
  (exists e, getItem store key w = (Failure e, w)).
Proof.
  rewrite strict_getItem_run.
  destruct (unavailable _); [right; eauto|].
  destruct (truthy_item _); [|right; eauto].
  destruct (JSON_parse _); [left | right]; eauto.
Qed.

Lemma strict_setItem_run (key : string) (value : json) (w : World) :
  setItem store key value w =
    match unavailable (localStorage w) with
    | Some t => (Failure (LocalStorageError.stringifyError t), w)
    | None =>
        match quota_exceeded (localStorage w) key (JSON_stringify value) with
        | Some t => (Failure (LocalStorageError.stringifyError t), w)
        | None => (Success tt, set_items (insert key (JSON_stringify value)) w)
        end
    end.
Proof.
  cbn [setItem localStorageServiceLive].
  unfold Effect.try_, setItem_try, Block.bind, Block.ret, localStorage_setItem.
  destruct (unavailable (localStorage w)); [reflexivity|].
  destruct (quota_exceeded _ _ _); reflexivity.
Qed.

Lemma strict_findAll_run (w : World) :
  findAll persisted w =
    match getItem store "users" w with
    | (Success v, w') => (Success v, w')
    | (Failure _, w') => (Success (JArr []), w')
    | (Die t, w') => (Die t, w')
    end.
Proof.
  cbn [findAll userLocalStorageRepositoryLive userLocalStorageRepository_with].
  unfold Effect.flatMap, Effect.catchAll, Effect.succeed.
  destruct (getItem store "users" w) as [[v|e|t] w']; reflexivity.
Qed.

Lemma strict_findById_run (id : Z) (w : World) :
  findById persisted id w =
    match findAll persisted w with
    | (Success users, w') =>
        match call_find users (has_id id) with
        | Normal user => (Success user, w')
        | Throw t => (Die t, w')
        end
    | (Failure e, w') => (Failure e, w')
    | (Die t, w') => (Die t, w')
    end.
Proof.
  rewrite strict_findAll_run.
  cbn [findById userLocalStorageRepositoryLive userLocalStorageRepository_with].
  unfold Effect.flatMap, Effect.catchAll, Effect.succeed, Effect.of_completion.
  destruct (getItem store "users" w) as [[v|e|t] w']; try reflexivity.
  destruct (call_find v (has_id id)); reflexivity.
Qed.

Lemma strict_findAll_never_fails : never_fails (findAll persisted).
Proof.
  intros w e. rewrite strict_findAll_run.
  destruct (strict_getItem_cases "users" w) as [[v ->]|[e' ->]]; discriminate.
Qed.

Lemma strict_findById_never_fails (id : Z) : never_fails (findById persisted id).
Proof.
  intros w e. rewrite strict_findById_run.
  pose proof (strict_findAll_never_fails w) as Hall.
  destruct (findAll persisted w) as [[users|e'|t] w']; simpl in *.
  - destruct (call_find users (has_id id)); discriminate.
  - destruct (Hall e' eq_refl).
  - discriminate.
Qed.

End Facts.
End Part000Facts.

(** * The claims of the specification *)

(** A store that cannot be used at all, and one that is full. *)
Lemma unavailable_read_fails `{J : JSON} (w : World) (t : Thrown) :
  unavailable (localStorage w) = Some t ->
  Part001.getItem Part001.localStorageServiceLive "users" w
    = (Failure (LocalStorageError.parseError t), w).
Proof. intros H. rewrite Part001Facts.getItem_run, H. reflexivity. Qed.

(** C1.  The repositories over the store never end in a typed failure,
    whatever the store holds or does: [findById], [findAll] and [update]
    of the second script, [findById] and [findAll] of the first.  When
    reading the store fails, [findById] answers [undefined], [findAll]
    the empty array and [update] unit; when [update] could read but the
    write fails, it answers unit all the same.  And on a collection of
    user records every operation ends in success.  (A defect, the third
    exit of the library, is no typed failure: stored JSON that is not an
    array of objects makes [find] throw, which no handler here sees.) *)
Theorem persisted_repository_never_fails `{J : JSON} :
  let store := Part001.localStorageServiceLive in
  let repo := Part001.userLocalStorageRepository_of store in
  let store0 := Part000.localStorageServiceLive in
  let repo0 := Part000.userLocalStorageRepositoryLive in
  ((forall id, never_fails (Part001.findById repo id)) /\
   never_fails (Part001.findAll repo) /\
   (forall user, never_fails (Part001.update repo user)) /\
   (forall id, never_fails (Part000.findById repo0 id)) /\
   never_fails (Part000.findAll repo0)) /\
  (forall w e w',
     Part001.getItem store "users" w = (Failure e, w') ->
     (forall id, Part001.findById repo id w = (Success None, w')) /\
     Part001.findAll repo w = (Success (JArr []), w') /\
     (forall user, Part001.update repo user w = (Success tt, w'))) /\
  (forall w v w1 user users' e w2,
     Part001.getItem store "users" w = (Success v, w1) ->
     Part001.replace_user user (Part001.or_empty v) = Normal users' ->
     Part001.setItem store "users" users' w1 = (Failure e, w2) ->
     Part001.update repo user w = (Success tt, w2)) /\
  (forall w e w',
     Part000.getItem store0 "users" w = (Failure e, w') ->
     (forall id, Part000.findById repo0 id w = (Success None, w')) /\
     Part000.findAll repo0 w = (Success (JArr []), w')) /\
  (forall w l,
     Part001.findAll repo w = (Success (of_users l), w) ->
     (forall id, succeeds_on (Part001.findById repo id) w) /\
     (forall user, succeeds_on (Part001.update repo user) w)) /\
  (forall w l,
     Part000.findAll repo0 w = (Success (of_users l), w) ->
     forall id, succeeds_on (Part000.findById repo0 id) w).
Proof.
  cbv zeta. repeat apply conj.
  - apply Part001Facts.findById_never_fails.
  - apply Part001Facts.findAll_never_fails.
  - apply Part001Facts.update_never_fails.
  - apply Part000Facts.strict_findById_never_fails.
  - apply Part000Facts.strict_findAll_never_fails.
  - intros w e w' Hread. repeat apply conj.
    + intros id. rewrite Part001Facts.findById_run, Part001Facts.findAll_run.
      rewrite Hread. reflexivity.
    + rewrite Part001Facts.findAll_run. rewrite Hread. reflexivity.
    + intros user. rewrite Part001Facts.update_run.
      rewrite Hread. reflexivity.
  - intros w v w1 user users' e w2 Hread Hreplace Hwrite.
    rewrite Part001Facts.update_run.
    rewrite Hread, Hreplace, Hwrite. reflexivity.
  - intros w e w' Hread. split.
    + intros id. rewrite Part000Facts.strict_findById_run, Part000Facts.strict_findAll_run.
      rewrite Hread. reflexivity.
    + rewrite Part000Facts.strict_findAll_run. rewrite Hread. reflexivity.
  - intros w l Hall. split.
    + intros id. unfold succeeds_on.
      rewrite Part001Facts.findById_run. rewrite Hall.
      unfold of_users. cbn [call_find]. rewrite Array_find_of_users. eauto.
    + intros user. unfold succeeds_on.
      rewrite Part001Facts.update_run.
      rewrite Part001Facts.findAll_run in Hall.
      destruct (Part001Facts.getItem_cases "users" w) as [[v Hv]|[e He]].
      * rewrite Hv in Hall |- *. injection Hall as Hv'. rewrite Hv'.
        rewrite Part001Facts.replace_user_of_users.
        match goal with
        | |- context [Part001.setItem _ _ ?x w] =>
            destruct (Part001Facts.setItem_cases "users" x w) as [[w' ->]|[e ->]]
        end; eauto.
      * rewrite He. eauto.
  - intros w l Hall id. unfold succeeds_on.
    rewrite Part000Facts.strict_findById_run. rewrite Hall.
    unfold of_users. cbn [call_find]. rewrite Array_find_of_users. eauto.
Qed.

Lemma persisted_repository_never_fails_witness :
  let repo := Part001.userLocalStorageRepository_of Part001.localStorageServiceLive in
  let w := initial_world broken_storage in
  Part001.findById repo 1 w = (Success None, w) /\
  Part001.findAll repo w = (Success (JArr []), w) /\
  Part001.update repo (User.mk 1 "Changed") w = (Success tt, w).
Proof.
  intros repo w.
  destruct (@persisted_repository_never_fails reference_JSON) as (_ & Hread & _).
  destruct (Hread w (LocalStorageError.parseError ThrownOther) w) as (H1 & H2 & H3).
  - apply unavailable_read_fails. reflexivity.
  - split; [apply H1|]. split; [exact H2 | apply H3].
Defined.

Lemma truthy_item_nonempty (s : string) : s <> "" -> truthy_item (Some s) = true.
Proof. intros H. simpl. now apply negb_true_iff, String.eqb_neq. Qed.

Lemma set_items_lookup (key value : string) (w : World) :
  items (localStorage (set_items (insert key value) w)) !! key = Some value.
Proof. apply lookup_insert_eq. Qed.

Lemma setItem_then_getItem `{J : JSON} `{!JSONLaws J}
    (k : string) (v : json) (w : World) :
  user_data v ->
  available w ->
  quota_exceeded (localStorage w) k (JSON_stringify v) = None ->
  let w' := set_items (insert k (JSON_stringify v)) w in
  Part001.setItem Part001.localStorageServiceLive k v w = (Success tt, w') /\
  Part001.getItem Part001.localStorageServiceLive k w' = (Success (Some v), w') /\
  Part000.setItem Part000.localStorageServiceLive k v w = (Success tt, w') /\
  Part000.getItem Part000.localStorageServiceLive k w' = (Success v, w').
Proof.
  intros Hdata Havailable Hquota w'. subst w'. unfold available in Havailable.
  rewrite Part001Facts.setItem_run, Part000Facts.strict_setItem_run, Havailable, Hquota.
  rewrite Part001Facts.getItem_run, Part000Facts.strict_getItem_run.
  cbn [localStorage set_items unavailable]. rewrite Havailable.
  change (items _ !! k) with (items (localStorage (set_items (insert k (JSON_stringify v)) w)) !! k).
  rewrite set_items_lookup.
  rewrite (truthy_item_nonempty _ (JSON_stringify_nonempty v)).
  cbn [default from_option]. unfold id.
  rewrite (JSON_parse_stringify v Hdata). auto.
Qed.

(** C6.  Through the store of the second script, a user record or an
    array of user records written under a key reads back as the same
    value: on a store that is usable and takes the write, [setItem(k, v)]
    succeeds and [getItem(k)] after it succeeds with [v].  The strict
    store of the first script does the same. *)
Theorem setItem_getItem_roundtrip `{J : JSON} `{!JSONLaws J}
    (k : string) (v : json) (w : World) :
  user_data v ->
  available w ->
  quota_exceeded (localStorage w) k (JSON_stringify v) = None ->
  exists w',
    Part001.setItem Part001.localStorageServiceLive k v w = (Success tt, w') /\
    Part001.getItem Part001.localStorageServiceLive k w' = (Success (Some v), w') /\
    Part000.setItem Part000.localStorageServiceLive k v w = (Success tt, w') /\
    Part000.getItem Part000.localStorageServiceLive k w' = (Success v, w').
Proof.
  intros Hdata Havailable Hquota.
  exists (set_items (insert k (JSON_stringify v)) w).
  now apply setItem_then_getItem.
Qed.

Lemma setItem_getItem_roundtrip_witness :
  exists w',
    Part001.setItem Part001.localStorageServiceLive "users" (of_users seed)
      (initial_world empty_storage) = (Success tt, w') /\
    Part001.getItem Part001.localStorageServiceLive "users" w'
      = (Success (Some (of_users seed)), w').
Proof.
  destruct (@setItem_getItem_roundtrip reference_JSON reference_JSONLaws
              "users" (of_users seed) (initial_world empty_storage))
    as (w' & Hset & Hget & _).
  - apply user_data_many.
  - reflexivity.
  - reflexivity.
  - exists w'. split; assumption.
Defined.

(** C9.  The permissive [getItem] tests the item for falsiness: on a
    usable store it succeeds with [undefined] for a key that is unset and
    for a key whose item is the empty string, whatever [JSON.parse] would
    do with that string. *)
Theorem permissive_getItem_absent_or_empty `{J : JSON} (key : string) (w : World) :
  available w ->
  items (localStorage w) !! key = None \/ items (localStorage w) !! key = Some "" ->
  Part001.getItem Part001.localStorageServiceLive key w = (Success None, w).
Proof.
  intros Havailable Hitem. unfold available in Havailable.
  rewrite Part001Facts.getItem_run, Havailable.
  destruct Hitem as [-> | ->]; reflexivity.
Qed.

Lemma permissive_getItem_absent_or_empty_witness :
  @Part001.getItem (@Part001.localStorageServiceLive throwing_JSON) "users"
    (initial_world (storage_with "users" ""))
  = (Success None, initial_world (storage_with "users" "")).
Proof.
  apply (@permissive_getItem_absent_or_empty throwing_JSON).
  - reflexivity.
  - right. reflexivity.
Defined.

(** ** [update] *)

Lemma inMemory_findAll_run (w : World) :
  Part001.findAll Part001.inMemoryUserRepository_of w
    = (Success (of_users (elems (users w))), w).
Proof. reflexivity. Qed.

Lemma inMemory_update_run (user : User.t) (w : World) :
  Part001.update Part001.inMemoryUserRepository_of user w =
    (Success tt,
     set_users
       (match first_index (fun v => User.id v =? User.id user) (elems (users w)) with
        | Some i => {| elems := <[i := user]> (elems (users w));
                       minus_one := minus_one (users w) |}
        | None => {| elems := elems (users w); minus_one := Some user |}
        end) w).
Proof.
  cbn [Part001.update Part001.inMemoryUserRepository_of].
  rewrite Array_findIndex_pure.
  destruct (first_index _ _) as [i|]; [|reflexivity].
  unfold Part001.array_set.
  replace (Z.of_nat i =? -1) with false by (symmetry; apply Z.eqb_neq; lia).
  replace (0 <=? Z.of_nat i) with true by (symmetry; apply Z.leb_le; lia).
  rewrite Nat2Z.id. reflexivity.
Qed.

(** The index [update] assigns at is [-1] or the index of an element:
    the assignment never grows the array. *)
Lemma inMemory_update_index (user : User.t) (l : list User.t) :
  exists index,
    Array_findIndex (fun u => Normal (User.id u =? User.id user)) l = Normal index /\
    (index = -1 \/ 0 <= index < Z.of_nat (length l)).
Proof.
  rewrite Array_findIndex_pure.
  destruct (first_index _ l) as [i|] eqn:Hi; eexists; split; try reflexivity.
  - right. apply first_index_lt in Hi. lia.
  - left. reflexivity.
Qed.

Lemma persisted_update_stored `{J : JSON} `{!JSONLaws J}
    (user : User.t) (l : list User.t) (v : option json) (w : World) :
  writable "users" w ->
  Part001.getItem Part001.localStorageServiceLive "users" w = (Success v, w) ->
  Part001.or_empty v = of_users l ->
  let l' := match first_index (fun v => User.id v =? User.id user) l with
            | Some i => <[i := user]> l
            | None => l
            end in
  let w' := set_items (insert "users" (JSON_stringify (of_users l'))) w in
  Part001.update (Part001.userLocalStorageRepository_of Part001.localStorageServiceLive)
    user w = (Success tt, w') /\
  Part001.findAll (Part001.userLocalStorageRepository_of Part001.localStorageServiceLive)
    w' = (Success (of_users l'), w').
Proof.
  intros Hwritable Hread Htyped l' w'.
  assert (unavailable (localStorage w) = None) as Havailable.
  { rewrite Part001Facts.getItem_run in Hread.
    destruct (unavailable (localStorage w)); [discriminate | reflexivity]. }
  destruct (setItem_then_getItem "users" (of_users l') w)
    as (Hset & Hget & _).
  { apply user_data_many. } { exact Havailable. } { apply Hwritable. }
  fold w' in Hset, Hget.
  split.
  - rewrite Part001Facts.update_run, Hread, Htyped.
    rewrite Part001Facts.replace_user_of_users. fold l'. rewrite Hset. reflexivity.
  - rewrite Part001Facts.findAll_run, Hget. reflexivity.
Qed.

Lemma updated_first_index (l : list User.t) (u : User.t) :
  updated l u (match first_index (fun v => User.id v =? User.id u) l with
               | Some i => <[i := u]> l
               | None => l
               end).
Proof.
  destruct (first_index _ l) as [i|] eqn:Hi.
  - now apply updated_replace.
  - now apply updated_absent.
Qed.

(** C2.  For both repositories of the second script and every collection
    [l] of user records (what [findAll] answers before), [update(u)]
    succeeds and leaves the collection [l'] (what [findAll] answers
    after) with: the same length; when a record with the identifier of
    [u] was present, [u] in the place of the first such record and every
    other place as before; when none was present, [l'] equal to [l].
    The repository over the store is taken on a store that accepts the
    write. *)
Theorem update_replaces_present_ignores_absent `{J : JSON} `{!JSONLaws J}
    (l : list User.t) (u : User.t) (w : World) :
  let inMemory := Part001.inMemoryUserRepository_of in
  let persisted := Part001.userLocalStorageRepository_of Part001.localStorageServiceLive in
  (Part001.findAll inMemory w = (Success (of_users l), w) ->
   exists w' l',
     Part001.update inMemory u w = (Success tt, w') /\
     Part001.findAll inMemory w' = (Success (of_users l'), w') /\
     updated l u l') /\
  (writable "users" w ->
   Part001.findAll persisted w = (Success (of_users l), w) ->
   exists w' l',
     Part001.update persisted u w = (Success tt, w') /\
     Part001.findAll persisted w' = (Success (of_users l'), w') /\
     updated l u l').
Proof.
  cbv zeta. split.
  - rewrite inMemory_findAll_run. intros Hall.
    assert (elems (users w) = l) as Hl by (apply of_users_inj; congruence).
    rewrite inMemory_update_run, Hl.
    eexists _, (match first_index _ l with Some i => <[i := u]> l | None => l end).
    split; [reflexivity|]. split; [|apply updated_first_index].
    rewrite inMemory_findAll_run.
    destruct (first_index _ l); reflexivity.
  - intros Hwritable Hall.
    rewrite Part001Facts.findAll_run in Hall.
    destruct (Part001Facts.getItem_cases "users" w) as [[v Hv]|[e He]].
    + rewrite Hv in Hall. injection Hall as Htyped.
      destruct (persisted_update_stored u l v w Hwritable Hv Htyped) as [Hupdate Hafter].
      eexists _, _. split; [exact Hupdate|]. split; [exact Hafter|].
      apply updated_first_index.
    + rewrite He in Hall.
      assert ([] = l) as <- by (apply of_users_inj; unfold of_users at 1; simpl; congruence).
      exists w, []. split; [|split].
      * rewrite Part001Facts.update_run, He. reflexivity.
      * rewrite Part001Facts.findAll_run, He. reflexivity.
      * apply (updated_first_index [] u).
Qed.

Lemma update_replaces_present_ignores_absent_witness :
  let u := User.mk 1 "Changed" in
  let w := initial_world (storage_with "users" (RefJSON.stringify (of_users seed))) in
  let inMemory := Part001.inMemoryUserRepository_of in
  let persisted := Part001.userLocalStorageRepository_of Part001.localStorageServiceLive in
  (exists w' l',
     Part001.update inMemory u w = (Success tt, w') /\
     Part001.findAll inMemory w' = (Success (of_users l'), w') /\
     updated seed u l') /\
  (exists w' l',
     Part001.update persisted u w = (Success tt, w') /\
     Part001.findAll persisted w' = (Success (of_users l'), w') /\
     updated seed u l').
Proof.
  intros u w inMemory persisted.
  destruct (@update_replaces_present_ignores_absent reference_JSON reference_JSONLaws
              seed u w) as [HinMemory Hpersisted].
  split.
  - apply HinMemory. reflexivity.
  - apply Hpersisted.
    + intros value. reflexivity.
    + vm_compute. reflexivity.
Defined.

(** ** [findById] *)

Lemma inMemory_findById_run (id : Z) (w : World) :
  Part001.findById Part001.inMemoryUserRepository_of id w
    = (Success (of_user <$> List.find (fun u => User.id u =? id) (elems (users w))), w) /\
  Part000.findById Part000.userInmemoryRepositoryLive id w
    = (Success (of_user <$> List.find (fun u => User.id u =? id) (elems (users w))), w).
Proof.
  cbn [Part001.findById Part001.inMemoryUserRepository_of
       Part000.findById Part000.userInmemoryRepositoryLive].
  rewrite Array_find_pure. split; reflexivity.
Qed.

(** C3.  On the seed the in-memory repositories of both scripts find
    every identifier the seed holds: [findById(id)] succeeds with a user
    record whose [id] is the one asked for. *)
Theorem inMemory_findById_finds_seed (id : Z) (w : World) :
  elems (users w) = seed ->
  id ∈ ids seed ->
  exists u,
    User.id u = id /\ (u ∈ seed) /\
    Part000.findById Part000.userInmemoryRepositoryLive id w
      = (Success (Some (of_user u)), w) /\
    Part001.findById Part001.inMemoryUserRepository_of id w
      = (Success (Some (of_user u)), w).
Proof.
  intros Hseed Hid.
  destruct (find_id_present seed id Hid) as (u & Hfind & Hin & Hu).
  exists u. split; [exact Hu|]. split; [exact Hin|].
  destruct (inMemory_findById_run id w) as [H1 H0].
  rewrite H1, H0, Hseed, Hfind. split; reflexivity.
Qed.

Lemma inMemory_findById_finds_seed_witness :
  exists u,
    User.id u = 2 /\ (u ∈ seed) /\
    Part000.findById Part000.userInmemoryRepositoryLive 2 (initial_world empty_storage)
      = (Success (Some (of_user u)), initial_world empty_storage) /\
    Part001.findById Part001.inMemoryUserRepository_of 2 (initial_world empty_storage)
      = (Success (Some (of_user u)), initial_world empty_storage).
Proof.
  apply (inMemory_findById_finds_seed 2 (initial_world empty_storage)).
  - reflexivity.
  - unfold ids, seed. simpl. apply list_elem_of_In. simpl. auto.
Defined.

(** The repository of [Program.ts] lists two users and answers
    [findById(3)] with a record it makes up. *)
Lemma Program_findById_fabricates :
  let w := initial_world empty_storage in
  exists l,
    Program.findAll Program.userRepositoryLive w = (Success l, w) /\
    (3 ∉ ids l) /\
    Program.findById Program.userRepositoryLive 3 w = (Success (User.mk 3 "User 3"), w).
Proof.
  intros w. eexists. split; [reflexivity|]. split; [|reflexivity].
  unfold ids. simpl. intros H. apply list_elem_of_In in H. simpl in H.
  intuition discriminate.
Qed.

(** C4, as amended.  For an identifier absent from the collection, the
    four repositories of the two unnamed scripts succeed with
    [undefined]: none fails, with the not-found error or otherwise, and
    none answers with a record.  The repository of [Program.ts] holds no
    collection to search: for every identifier it succeeds with the
    record it builds from the identifier, present in its listing or not. *)
Theorem findById_absent `{J : JSON} (l : list User.t) (id : Z) (w : World) :
  id ∉ ids l ->
  (Part000.findAll Part000.userInmemoryRepositoryLive w = (Success (of_users l), w) ->
   Part000.findById Part000.userInmemoryRepositoryLive id w = (Success None, w)) /\
  (Part000.findAll Part000.userLocalStorageRepositoryLive w = (Success (of_users l), w) ->
   Part000.findById Part000.userLocalStorageRepositoryLive id w = (Success None, w)) /\
  (Part001.findAll Part001.inMemoryUserRepository_of w = (Success (of_users l), w) ->
   Part001.findById Part001.inMemoryUserRepository_of id w = (Success None, w)) /\
  (Part001.findAll (Part001.userLocalStorageRepository_of Part001.localStorageServiceLive) w
     = (Success (of_users l), w) ->
   Part001.findById (Part001.userLocalStorageRepository_of Part001.localStorageServiceLive)
     id w = (Success None, w)) /\
  (forall id' w',
     Program.findById Program.userRepositoryLive id' w'
       = (Success (User.mk id' ("User " +:+ Number_toString id')), w')).
Proof.
  intros Habsent.
  pose proof (find_id_absent l id Habsent) as Hfind.
  destruct (inMemory_findById_run id w) as [H1 H0].
  repeat apply conj.
  - intros Hall.
    assert (elems (users w) = l) as Hl.
    { apply of_users_inj.
      assert ((Success (E := Js.Error) (of_users (elems (users w))), w)
              = (Success (of_users l), w)) as Heq by exact Hall.
      congruence. }
    rewrite H0, Hl, Hfind. reflexivity.
  - intros Hall. rewrite Part000Facts.strict_findById_run, Hall.
    unfold of_users. cbn [call_find]. rewrite Array_find_of_users, Hfind. reflexivity.
  - intros Hall.
    assert (elems (users w) = l) as Hl.
    { apply of_users_inj.
      assert ((Success (E := Js.Error) (of_users (elems (users w))), w)
              = (Success (of_users l), w)) as Heq by exact Hall.
      congruence. }
    rewrite H1, Hl, Hfind. reflexivity.
  - intros Hall. rewrite Part001Facts.findById_run, Hall.
    unfold of_users. cbn [call_find]. rewrite Array_find_of_users, Hfind. reflexivity.
  - reflexivity.
Qed.

Lemma findById_absent_witness :
  let w := initial_world (storage_with "users" (RefJSON.stringify (of_users seed))) in
  Part000.findById Part000.userInmemoryRepositoryLive 3 w = (Success None, w) /\
  Part000.findById Part000.userLocalStorageRepositoryLive 3 w = (Success None, w) /\
  Part001.findById Part001.inMemoryUserRepository_of 3 w = (Success None, w) /\
  Part001.findById (Part001.userLocalStorageRepository_of Part001.localStorageServiceLive)
    3 w = (Success None, w).
Proof.
  intros w.
  destruct (@findById_absent reference_JSON seed 3 w) as (H1 & H2 & H3 & H4 & _).
  - unfold ids, seed. simpl. intros H. apply list_elem_of_In in H. simpl in H.
    intuition discriminate.
  - split; [apply H1; reflexivity|].
    split; [apply H2; vm_compute; reflexivity|].
    split; [apply H3; reflexivity|].
    apply H4. vm_compute. reflexivity.
Defined.

(** ** The strict [getItem] *)

(** What the strict [getItem] answers on a usable store: every exception
    of its [try] block, the [NotFound] error it throws itself included,
    goes through [parseError]. *)
Lemma strict_getItem_unset `{J : JSON} (key : string) (w : World) :
  available w ->
  items (localStorage w) !! key = None \/ items (localStorage w) !! key = Some "" ->
  Part000.getItem Part000.localStorageServiceLive key w
    = (Failure (LocalStorageError.parseError
                  (ThrownError (LocalStorageError.NotFound key))), w).
Proof.
  intros Havailable Hitem. unfold available in Havailable.
  rewrite Part000Facts.strict_getItem_run, Havailable.
  destruct Hitem as [-> | ->]; reflexivity.
Qed.

Lemma strict_getItem_unparsable `{J : JSON} (key item : string) (t : Thrown) (w : World) :
  available w ->
  items (localStorage w) !! key = Some item ->
  item <> "" ->
  JSON_parse item = Throw t ->
  Part000.getItem Part000.localStorageServiceLive key w
    = (Failure (LocalStorageError.parseError t), w).
Proof.
  intros Havailable Hitem Hnonempty Hparse. unfold available in Havailable.
  rewrite Part000Facts.strict_getItem_run, Havailable, Hitem.
  rewrite (truthy_item_nonempty item Hnonempty).
  cbn [default from_option]. unfold id. rewrite Hparse. reflexivity.
Qed.

(** C5, where the code departs from it.  On the empty store the strict
    [getItem("users")] fails, but not with the error
    [LocalStorageError.NotFound("users")] it throws: the [catch] of its
    [Effect.try] hands that error to [parseError], which wraps its message
    in a new error, so the key-not-found failure comes out as a
    parse-failure error with a doubled prefix. *)
Theorem strict_getItem_wraps_NotFound :
  let w := initial_world empty_storage in
  Part000.getItem Part000.localStorageServiceLive "users" w
    = (Failure
         {| Js.name := "LocalStorageError";
            Js.message :=
              "LocalStorageError: LocalStorageError: LocalStorage key users not found" |},
       w) /\
  LocalStorageError.NotFound "users"
    = {| Js.name := "LocalStorageError";
         Js.message := "LocalStorageError: LocalStorage key users not found" |} /\
  Part000.getItem Part000.localStorageServiceLive "users" w
    <> (Failure (LocalStorageError.NotFound "users"), w).
Proof.
  intros w. split; [reflexivity|]. split; [reflexivity|].
  rewrite strict_getItem_unset by (reflexivity || (left; reflexivity)).
  intros H. vm_compute in H. discriminate H.
Qed.

(** ** The composition root *)

(** C7.  The second script runs [main] against the layer the environment
    variable selects: the in-memory repository when its value is the
    string [development], the repository over the store for every other
    value and when it is not set. *)
Theorem environment_selects_repository `{J : JSON} (BUN_ENV : option string) :
  Part001.selectUserRepositoryLayer (strict_eq_string BUN_ENV "development")
    = (if bool_decide (BUN_ENV = Some "development")
       then Part001.inMemoryUserRepositoryLayer
       else Part001.userLocalStorageRepositoryLayer) /\
  Part001.run BUN_ENV
    = Part001.main
        (if bool_decide (BUN_ENV = Some "development")
         then Part001.inMemoryUserRepository_of
         else Part001.userLocalStorageRepository_of Part001.localStorageServiceLive).
Proof.
  assert (strict_eq_string BUN_ENV "development"
          = bool_decide (BUN_ENV = Some "development")) as Hflag.
  { destruct BUN_ENV as [value|]; simpl.
    - destruct (String.eqb_spec value "development") as [->|Hne].
      + now rewrite bool_decide_eq_true_2.
      + rewrite bool_decide_eq_false_2; [reflexivity | congruence].
    - reflexivity. }
  unfold Part001.run. rewrite Hflag.
  destruct (bool_decide _); split; reflexivity.
Qed.

(** The two layers are told apart by what they answer: on the seed and an
    empty store the in-memory repository finds user 1, the repository
    over the store finds nobody. *)
Lemma layers_differ :
  let w := initial_world empty_storage in
  Part001.run (Some "development") w
    = (Success tt,
       add_line ("all", Some (of_users seed))
         (add_line ("user2", Some (of_user (User.mk 2 "User 2")))
            (add_line ("user1", Some (of_user (User.mk 1 "User 1"))) w))) /\
  Part001.run (Some "production") w
    = (Success tt,
       add_line ("all", Some (JArr []))
         (add_line ("user2", None) (add_line ("user1", None) w))).
Proof. split; vm_compute; reflexivity. Qed.

(** ** What the demos print *)

Lemma Part000_main_run (repo : Part000.UserRepository) (w : World)
    (user1 user2 : option json) (all : json) :
  Part000.findById repo 1 w = (Success user1, w) ->
  Part000.findById repo 2 w = (Success user2, w) ->
  Part000.findAll repo w = (Success all, w) ->
  Part000.main repo w = (Success tt, three_lines user1 user2 all w).
Proof.
  intros H1 H2 Hall. unfold Part000.main, Effect.flatMap.
  rewrite H1, H2, Hall. reflexivity.
Qed.

Lemma Part001_main_run (repo : Part001.UserRepository) (w : World)
    (user1 user2 : option json) (all : json) :
  Part001.findById repo 1 w = (Success user1, w) ->
  Part001.findById repo 2 w = (Success user2, w) ->
  Part001.findAll repo w = (Success all, w) ->
  Part001.main repo w = (Success tt, three_lines user1 user2 all w).
Proof.
  intros H1 H2 Hall. unfold Part001.main, Effect.flatMap.
  rewrite H1, H2, Hall. reflexivity.
Qed.

Lemma Part000_persisted_findById `{J : JSON} (l : list User.t) (id : Z) (w : World) :
  Part000.findAll Part000.userLocalStorageRepositoryLive w = (Success (of_users l), w) ->
  Part000.findById Part000.userLocalStorageRepositoryLive id w
    = (Success (of_user <$> List.find (fun u => User.id u =? id) l), w).
Proof.
  intros Hall. rewrite Part000Facts.strict_findById_run, Hall.
  unfold of_users. cbn [call_find]. rewrite Array_find_of_users. reflexivity.
Qed.

Lemma Part001_persisted_findById `{J : JSON} (l : list User.t) (id : Z) (w : World) :
  Part001.findAll (Part001.userLocalStorageRepository_of Part001.localStorageServiceLive) w
    = (Success (of_users l), w) ->
  Part001.findById (Part001.userLocalStorageRepository_of Part001.localStorageServiceLive)
    id w = (Success (of_user <$> List.find (fun u => User.id u =? id) l), w).
Proof.
  intros Hall. rewrite Part001Facts.findById_run, Hall.
  unfold of_users. cbn [call_find]. rewrite Array_find_of_users. reflexivity.
Qed.

(** The demo of [Program.ts] prints two lines and lists nothing. *)
Lemma Program_prints_two_lines :
  exists w',
    Program.main (initial_world empty_storage) = (Success tt, w') /\
    console w' = [ ("userService", Some (of_user (User.mk 1 "User 1")));
                   ("userRepository", Some (of_user (User.mk 2 "User 2"))) ] /\
    length (console w') <> 3%nat.
Proof. eexists. split; [reflexivity|]. split; [reflexivity | discriminate]. Qed.

(** C8, as amended.  The demo of [Program.ts] prints exactly two lines,
    the first lookup (or the fallback record) and the lookup of user 2,
    and no listing.  The demos of the two unnamed scripts print exactly
    three lines, in this order: [findById(1)], [findById(2)],
    [findAll()]; they do so on every platform when run on the in-memory
    repository, and when run on the repository over the store on every
    platform whose collection is a list of user records (the empty list
    when the store cannot be read). *)
Theorem demos_print_lookups_in_order `{J : JSON} (w : World) :
  let find (l : list User.t) (id : Z) :=
    of_user <$> List.find (fun u => User.id u =? id) l in
  (forall userService,
     Program.program Program.userRepositoryLive userService w
       = (Success tt,
          add_line ("userRepository", Some (of_user (User.mk 2 "User 2")))
            (add_line
               ("userService",
                Some (of_user (if Program.Option_isNone userService
                               then User.mk 1 "Optional User"
                               else User.mk 1 "User 1"))) w))) /\
  Part000.main Part000.userInmemoryRepositoryLive w
    = (Success tt,
       three_lines (find (elems (users w)) 1) (find (elems (users w)) 2)
         (of_users (elems (users w))) w) /\
  Part001.run (Some "development") w
    = (Success tt,
       three_lines (find (elems (users w)) 1) (find (elems (users w)) 2)
         (of_users (elems (users w))) w) /\
  (forall l,
     Part000.findAll Part000.userLocalStorageRepositoryLive w = (Success (of_users l), w) ->
     Part000.run w = (Success tt, three_lines (find l 1) (find l 2) (of_users l) w)) /\
  (forall l BUN_ENV,
     BUN_ENV <> Some "development" ->
     Part001.findAll (Part001.userLocalStorageRepository_of Part001.localStorageServiceLive) w
       = (Success (of_users l), w) ->
     Part001.run BUN_ENV w
       = (Success tt, three_lines (find l 1) (find l 2) (of_users l) w)).
Proof.
  cbv zeta. repeat apply conj.
  - intros [s|]; reflexivity.
  - apply Part000_main_run; try reflexivity; apply inMemory_findById_run.
  - change (Part001.run (Some "development") w)
      with (Part001.main Part001.inMemoryUserRepository_of w).
    apply Part001_main_run; try reflexivity; apply inMemory_findById_run.
  - intros l Hall. unfold Part000.run.
    apply Part000_main_run; [| |exact Hall]; now apply Part000_persisted_findById.
  - intros l BUN_ENV Henv Hall.
    assert (Part001.run BUN_ENV
            = Part001.main
                (Part001.userLocalStorageRepository_of Part001.localStorageServiceLive))
      as ->.
    { unfold Part001.run.
      replace (strict_eq_string BUN_ENV "development") with false; [reflexivity|].
      destruct BUN_ENV as [value|]; [|reflexivity]. simpl.
      symmetry. apply String.eqb_neq. congruence. }
    apply Part001_main_run; [| |exact Hall]; now apply Part001_persisted_findById.
Qed.

Lemma demos_print_lookups_in_order_witness :
  let w := initial_world (storage_with "users" (RefJSON.stringify (of_users seed))) in
  Part000.run w
    = (Success tt,
       three_lines (Some (of_user (User.mk 1 "User 1")))
         (Some (of_user (User.mk 2 "User 2"))) (of_users seed) w) /\
  Part001.run None w
    = (Success tt,
       three_lines (Some (of_user (User.mk 1 "User 1")))
         (Some (of_user (User.mk 2 "User 2"))) (of_users seed) w).
Proof.
  intros w.
  destruct (@demos_print_lookups_in_order reference_JSON w) as (_ & _ & _ & H0 & H1).
  split.
  - apply (H0 seed). vm_compute. reflexivity.
  - apply (H1 seed None); [discriminate|]. vm_compute. reflexivity.
Defined.

(** ** The optional service *)

(** C10.  [program] looks [UserService] up as an option and goes on
    either way.  Without the service the first line printed is the
    fallback record and the rest of the program runs from there; on the
    repository of the script the run succeeds.  With the service the
    first line printed is what [userRepository.findById(1)] answered. *)
Theorem optional_UserService (userRepository : Program.UserRepository) (w : World) :
  let rest : Effect unit Empty_set :=
    let* user2 := Program.findById userRepository 2 in
    Effect.log "userRepository" (Some (of_user user2)) in
  Program.program userRepository None w
    = rest (add_line ("userService", Some (of_user (User.mk 1 "Optional User"))) w) /\
  Program.program Program.userRepositoryLive None w
    = (Success tt,
       add_line ("userRepository", Some (of_user (User.mk 2 "User 2")))
         (add_line ("userService", Some (of_user (User.mk 1 "Optional User"))) w)) /\
  (forall userService user w1,
     Program.findById userRepository 1 w = (Success user, w1) ->
     Program.program userRepository (Some userService) w
       = rest (add_line ("userService", Some (of_user user)) w1)).
Proof.
  cbv zeta. repeat apply conj.
  - reflexivity.
  - reflexivity.
  - intros userService user w1 H1.
    unfold Program.program, Effect.flatMap. cbn [Program.Option_isNone].
    rewrite H1. reflexivity.
Qed.

Lemma optional_UserService_witness :
  let w := initial_world empty_storage in
  Program.program Program.userRepositoryLive (Some Program.userServiceLive) w
    = (Success tt,
       add_line ("userRepository", Some (of_user (User.mk 2 "User 2")))
         (add_line ("userService", Some (of_user (User.mk 1 "User 1"))) w)).
Proof.
  intros w.
  destruct (optional_UserService Program.userRepositoryLive w)
    as (_ & _ & Hsome).
  rewrite (Hsome Program.userServiceLive (User.mk 1 "User 1") w eq_refl).
  reflexivity.
Defined.

(** ** Examples on the reference platform *)

(** Where the third exit shows: an item that is JSON but no array makes
    [users.find] throw inside [Effect.map], a defect that [catchAll] does
    not handle.  It is no typed failure. *)
Example persisted_findById_defect_on_non_array :
  let w := initial_world (storage_with "users" "5") in
  Part001.findById (Part001.userLocalStorageRepository_of Part001.localStorageServiceLive)
    1 w = (Die (TypeError "find is not a function"), w).
Proof. vm_compute. reflexivity. Qed.

(** The scenario of the specification on the in-memory repository:
    [update({1, "Changed"})], then [findById(1)]. *)
Example scenario_update_then_findById :
  let repo := Part001.inMemoryUserRepository_of in
  let scenario :=
    let* _ := Part001.update repo (User.mk 1 "Changed") in
    Part001.findById repo 1 in
  fst (scenario (initial_world empty_storage))
    = Success (Some (of_user (User.mk 1 "Changed"))).
Proof. vm_compute. reflexivity. Qed.

(** [update] of an identifier the array does not hold: the elements stay
    and the record lands in the property ["-1"]. *)
Example inMemory_update_absent_sets_property :
  let repo := Part001.inMemoryUserRepository_of in
  let w := initial_world empty_storage in
  users (snd (Part001.update repo (User.mk 7 "Nobody") w))
    = {| elems := seed; minus_one := Some (User.mk 7 "Nobody") |}.
Proof. vm_compute. reflexivity. Qed.

(** * Further properties of the scripts *)

(** ** Shared facts *)

Lemma replace_first_cons (user x : User.t) (l : list User.t) :
  replace_first user (x :: l) =
    if User.id x =? User.id user then user :: l else x :: replace_first user l.
Proof.
  unfold replace_first. cbn [first_index].
  destruct (User.id x =? User.id user); [reflexivity|].
  destruct (first_index _ l); reflexivity.
Qed.

Lemma replace_first_length (user : User.t) (l : list User.t) :
  length (replace_first user l) = length l.
Proof.
  unfold replace_first. destruct (first_index _ l); [apply length_insert | reflexivity].
Qed.

Lemma replace_first_ids (user : User.t) (l : list User.t) :
  ids (replace_first user l) = ids l.
Proof.
  induction l as [|x l IH]; [reflexivity|].
  rewrite replace_first_cons.
  destruct (User.id x =? User.id user) eqn:Hx.
  - apply Z.eqb_eq in Hx. unfold ids. rewrite !fmap_cons. now rewrite Hx.
  - unfold ids in *. rewrite !fmap_cons. now rewrite IH.
Qed.

Lemma replace_first_idempotent (user : User.t) (l : list User.t) :
  replace_first user (replace_first user l) = replace_first user l.
Proof.
  induction l as [|x l IH]; [reflexivity|].
  rewrite replace_first_cons.
  destruct (User.id x =? User.id user) eqn:Hx.
  - rewrite replace_first_cons, Z.eqb_refl. reflexivity.
  - rewrite replace_first_cons, Hx, IH. reflexivity.
Qed.

Lemma find_replace_first_same (user : User.t) (l : list User.t) :
  List.find (fun v => User.id v =? User.id user) (replace_first user l) =
    if bool_decide (User.id user ∈ ids l) then Some user else None.
Proof.
  induction l as [|x l IH].
  - rewrite bool_decide_eq_false_2; [reflexivity|]. unfold ids. simpl. apply not_elem_of_nil.
  - rewrite replace_first_cons.
    destruct (User.id x =? User.id user) eqn:Hx.
    + cbn [List.find]. rewrite Z.eqb_refl.
      rewrite bool_decide_eq_true_2; [reflexivity|].
      apply Z.eqb_eq in Hx. unfold ids. rewrite fmap_cons, Hx. apply elem_of_cons. now left.
    + cbn [List.find]. rewrite Hx, IH.
      apply Z.eqb_neq in Hx.
      destruct (bool_decide (User.id user ∈ ids l)) eqn:Hin.
      * apply bool_decide_eq_true_1 in Hin.
        rewrite bool_decide_eq_true_2; [reflexivity|].
        unfold ids in *. rewrite fmap_cons. apply elem_of_cons. now right.
      * apply bool_decide_eq_false_1 in Hin.
        rewrite bool_decide_eq_false_2; [reflexivity|].
        unfold ids in *. rewrite fmap_cons. intros [Heq|Hl]%elem_of_cons; congruence.
Qed.

Lemma find_replace_first_other (user : User.t) (id : Z) (l : list User.t) :
  id <> User.id user ->
  List.find (fun v => User.id v =? id) (replace_first user l) =
    List.find (fun v => User.id v =? id) l.
Proof.
  intros Hid. induction l as [|x l IH]; [reflexivity|].
  rewrite replace_first_cons.
  destruct (User.id x =? User.id user) eqn:Hx.
  - apply Z.eqb_eq in Hx. cbn [List.find].
    replace (User.id user =? id) with false by (symmetry; apply Z.eqb_neq; congruence).
    replace (User.id x =? id) with false by (symmetry; apply Z.eqb_neq; congruence).
    reflexivity.
  - cbn [List.find]. rewrite IH. reflexivity.
Qed.

Lemma set_items_twice (f g : gmap string string -> gmap string string) (w : World) :
  set_items f (set_items g w) = set_items (fun m => f (g m)) w.
Proof. reflexivity. Qed.

Lemma permissive_removeItem_run `{J : JSON} (key : string) (w : World) :
  Part001.removeItem Part001.localStorageServiceLive key w =
    match unavailable (localStorage w) with
    | Some t => (Failure (LocalStorageError.parseError t), w)
    | None => (Success tt, set_items (delete key) w)
    end.
Proof.
  cbn [Part001.removeItem Part001.localStorageServiceLive].
  unfold Effect.try_, localStorage_removeItem.
  destruct (unavailable (localStorage w)); reflexivity.
Qed.

Lemma strict_removeItem_run `{J : JSON} (key : string) (w : World) :
  Part000.removeItem Part000.localStorageServiceLive key w =
    match unavailable (localStorage w) with
    | Some t => (Failure (LocalStorageError.parseError t), w)
    | None => (Success tt, set_items (delete key) w)
    end.
Proof.
  cbn [Part000.removeItem Part000.localStorageServiceLive].
  unfold Effect.try_, localStorage_removeItem.
  destruct (unavailable (localStorage w)); reflexivity.
Qed.

(** ** The store service *)

(** X1.  [removeItem(k)] on a usable store always succeeds, also for a key
    that is not set; after it the permissive [getItem(k)] answers
    [undefined], the strict one fails with the wrapped not-found error, and
    every other key holds what it held. *)
Theorem removeItem_forgets_the_key `{J : JSON} (k : string) (w : World) :
  available w ->
  exists w',
    Part001.removeItem Part001.localStorageServiceLive k w = (Success tt, w') /\
    Part000.removeItem Part000.localStorageServiceLive k w = (Success tt, w') /\
    Part001.getItem Part001.localStorageServiceLive k w' = (Success None, w') /\
    Part000.getItem Part000.localStorageServiceLive k w'
      = (Failure (LocalStorageError.parseError
                    (ThrownError (LocalStorageError.NotFound k))), w') /\
    (forall k', k' <> k ->
       items (localStorage w') !! k' = items (localStorage w) !! k') /\
    users w' = users w /\ console w' = console w.
Proof.
  intros Havailable. unfold available in Havailable.
  exists (set_items (delete k) w).
  rewrite permissive_removeItem_run, strict_removeItem_run, Havailable.
  rewrite Part001Facts.getItem_run, Part000Facts.strict_getItem_run.
  cbn [localStorage set_items unavailable items]. rewrite Havailable.
  rewrite lookup_delete_eq. cbn [truthy_item].
  repeat split; try reflexivity.
  intros k' Hk'. now apply lookup_delete_ne.
Qed.

Lemma removeItem_forgets_the_key_witness :
  exists w',
    Part001.removeItem Part001.localStorageServiceLive "users"
      (initial_world (storage_with "users" "[]")) = (Success tt, w') /\
    Part001.getItem Part001.localStorageServiceLive "users" w' = (Success None, w').
Proof.
  destruct (@removeItem_forgets_the_key reference_JSON "users"
              (initial_world (storage_with "users" "[]")))
    as (w' & H1 & _ & H2 & _).
  - reflexivity.
  - exists w'. split; assumption.
Defined.



(** X3.  [setItem(k, v)] and [removeItem(k)] touch one key: what
    [getItem] answers for any other key is the same after as before, on
    every platform, whether the operation went through or failed. *)
Theorem store_writes_touch_one_key `{J : JSON} (k k' : string) (v : json) (w : World) :
  k' <> k ->
  let after_set := snd (Part001.setItem Part001.localStorageServiceLive k v w) in
  let after_remove := snd (Part001.removeItem Part001.localStorageServiceLive k w) in
  fst (Part001.getItem Part001.localStorageServiceLive k' after_set)
    = fst (Part001.getItem Part001.localStorageServiceLive k' w) /\
  fst (Part000.getItem Part000.localStorageServiceLive k' after_set)
    = fst (Part000.getItem Part000.localStorageServiceLive k' w) /\
  fst (Part001.getItem Part001.localStorageServiceLive k' after_remove)
    = fst (Part001.getItem Part001.localStorageServiceLive k' w) /\
  fst (Part000.getItem Part000.localStorageServiceLive k' after_remove)
    = fst (Part000.getItem Part000.localStorageServiceLive k' w).
Proof.
  intros Hne. cbv zeta.
  rewrite Part001Facts.setItem_run, permissive_removeItem_run.
  rewrite !Part001Facts.getItem_run, !Part000Facts.strict_getItem_run.
  destruct (unavailable (localStorage w)) as [t|] eqn:Hu.
  - cbn [snd]. rewrite Hu. auto.
  - destruct (quota_exceeded _ _ _) as [t|]; cbn [snd localStorage set_items unavailable items];
      rewrite Hu, ?lookup_insert_ne, ?lookup_delete_ne by congruence;
      repeat split;
      repeat match goal with
      | |- context [truthy_item ?x] => destruct (truthy_item x)
      | |- context [JSON_parse ?x] => destruct (JSON_parse x)
      end; reflexivity.
Qed.

Lemma store_writes_touch_one_key_witness :
  let w := initial_world (storage_with "theme" "[]") in
  fst (Part001.getItem Part001.localStorageServiceLive "theme"
         (snd (Part001.setItem Part001.localStorageServiceLive "users" (of_users seed) w)))
    = fst (Part001.getItem Part001.localStorageServiceLive "theme" w).
Proof.
  intros w.
  destruct (@store_writes_touch_one_key reference_JSON "users" "theme" (of_users seed) w)
    as (H & _).
  - discriminate.
  - exact H.
Defined.

(** X4.  The last write wins: after [setItem(k, v1)] and [setItem(k, v2)]
    on a store that is usable and takes both writes, [getItem(k)] answers
    [v2], for user data [v2] and any [v1]. *)
Theorem setItem_last_write_wins `{J : JSON} `{!JSONLaws J}
    (k : string) (v1 v2 : json) (w : World) :
  user_data v2 ->
  available w ->
  writable k w ->
  exists w1 w2,
    Part001.setItem Part001.localStorageServiceLive k v1 w = (Success tt, w1) /\
    Part001.setItem Part001.localStorageServiceLive k v2 w1 = (Success tt, w2) /\
    Part001.getItem Part001.localStorageServiceLive k w2 = (Success (Some v2), w2) /\
    Part000.getItem Part000.localStorageServiceLive k w2 = (Success v2, w2) /\
    w2 = snd (Part001.setItem Part001.localStorageServiceLive k v2 w).
Proof.
  intros Hdata Havailable Hwritable.
  pose (w1 := set_items (insert k (JSON_stringify v1)) w).
  assert (available w1) as Havailable1 by exact Havailable.
  destruct (setItem_then_getItem k v2 w1 Hdata Havailable1 (Hwritable _))
    as (Hset2 & Hget2 & _ & Hget0).
  exists w1, (set_items (insert k (JSON_stringify v2)) w1).
  split; [|split; [exact Hset2 | split; [exact Hget2 | split; [exact Hget0|]]]].
  - rewrite Part001Facts.setItem_run.
    unfold available in Havailable. rewrite Havailable, (Hwritable _). reflexivity.
  - rewrite Part001Facts.setItem_run.
    unfold available in Havailable. rewrite Havailable, (Hwritable _).
    cbn [snd]. subst w1. rewrite set_items_twice.
    unfold set_items. do 2 f_equal. apply insert_insert_eq.
Qed.

Lemma setItem_last_write_wins_witness :
  exists w1 w2,
    Part001.setItem Part001.localStorageServiceLive "users" (of_users [])
      (initial_world empty_storage) = (Success tt, w1) /\
    Part001.setItem Part001.localStorageServiceLive "users" (of_users seed) w1
      = (Success tt, w2) /\
    Part001.getItem Part001.localStorageServiceLive "users" w2
      = (Success (Some (of_users seed)), w2).
Proof.
  destruct (@setItem_last_write_wins reference_JSON reference_JSONLaws
              "users" (of_users []) (of_users seed) (initial_world empty_storage))
    as (w1 & w2 & H1 & H2 & H3 & _).
  - apply user_data_many.
  - reflexivity.
  - intros value. reflexivity.
  - exists w1, w2. repeat split; assumption.
Defined.

(** ** The repositories *)

(** X5.  Looking up changes nothing: [getItem] of both stores and
    [findById] and [findAll] of all five repositories leave the platform
    (store, [users] array, console) as it was, whatever they answer. *)
Theorem lookups_leave_the_platform `{J : JSON} (w : World) :
  (forall k, snd (Part001.getItem Part001.localStorageServiceLive k w) = w) /\
  (forall k, snd (Part000.getItem Part000.localStorageServiceLive k w) = w) /\
  (forall id,
     snd (Part001.findById
            (Part001.userLocalStorageRepository_of Part001.localStorageServiceLive) id w) = w /\
     snd (Part001.findById Part001.inMemoryUserRepository_of id w) = w /\
     snd (Part000.findById Part000.userLocalStorageRepositoryLive id w) = w /\
     snd (Part000.findById Part000.userInmemoryRepositoryLive id w) = w /\
     snd (Program.findById Program.userRepositoryLive id w) = w) /\
  snd (Part001.findAll
         (Part001.userLocalStorageRepository_of Part001.localStorageServiceLive) w) = w /\
  snd (Part001.findAll Part001.inMemoryUserRepository_of w) = w /\
  snd (Part000.findAll Part000.userLocalStorageRepositoryLive w) = w /\
  snd (Part000.findAll Part000.userInmemoryRepositoryLive w) = w /\
  snd (Program.findAll Program.userRepositoryLive w) = w.
Proof.
  assert (forall k, snd (Part001.getItem Part001.localStorageServiceLive k w) = w) as H1.
  { intros k. destruct (Part001Facts.getItem_cases k w) as [[x ->]|[e ->]]; reflexivity. }
  assert (forall k, snd (Part000.getItem Part000.localStorageServiceLive k w) = w) as H0.
  { intros k. destruct (Part000Facts.strict_getItem_cases k w) as [[x ->]|[e ->]]; reflexivity. }
  assert (snd (Part001.findAll
                 (Part001.userLocalStorageRepository_of Part001.localStorageServiceLive) w)
          = w) as Hall1.
  { rewrite Part001Facts.findAll_run.
    destruct (Part001Facts.getItem_cases "users" w) as [[x ->]|[e ->]]; reflexivity. }
  assert (snd (Part000.findAll Part000.userLocalStorageRepositoryLive w) = w) as Hall0.
  { rewrite Part000Facts.strict_findAll_run.
    destruct (Part000Facts.strict_getItem_cases "users" w) as [[x ->]|[e ->]]; reflexivity. }
  split; [exact H1|]. split; [exact H0|]. split; [|repeat apply conj; auto].
  intros id. repeat apply conj.
  - rewrite Part001Facts.findById_run.
    destruct (Part001.findAll _ w) as [[users|e|t] w'] eqn:Hfind; cbn [snd] in Hall1 |- *;
      try assumption.
    destruct (call_find users (has_id id)); assumption.
  - destruct (inMemory_findById_run id w) as [-> _]. reflexivity.
  - rewrite Part000Facts.strict_findById_run.
    destruct (Part000.findAll _ w) as [[users|e|t] w'] eqn:Hfind; cbn [snd] in Hall0 |- *;
      try assumption.
    destruct (call_find users (has_id id)); assumption.
  - destruct (inMemory_findById_run id w) as [_ ->]. reflexivity.
  - reflexivity.
Qed.

(** X6.  [update] over a store whose key ["users"] is unset (or holds the
    empty string) inserts nothing, yet it writes: afterwards the item
    ["users"] is the text of the empty array. *)
Theorem update_writes_the_empty_collection `{J : JSON} (user : User.t) (w : World) :
  available w ->
  writable "users" w ->
  items (localStorage w) !! "users" = None \/ items (localStorage w) !! "users" = Some "" ->
  Part001.update (Part001.userLocalStorageRepository_of Part001.localStorageServiceLive)
    user w
    = (Success tt, set_items (insert "users" (JSON_stringify (JArr []))) w).
Proof.
  intros Havailable Hwritable Hitem. unfold available in Havailable.
  rewrite Part001Facts.update_run, Part001Facts.getItem_run, Havailable.
  assert (truthy_item (items (localStorage w) !! "users") = false) as ->.
  { destruct Hitem as [-> | ->]; reflexivity. }
  cbv iota.
  change (Part001.replace_user user (Part001.or_empty None)) with (Normal (JArr [])).
  cbv iota.
  rewrite Part001Facts.setItem_run, Havailable, (Hwritable _). reflexivity.
Qed.

Lemma update_writes_the_empty_collection_witness :
  items (localStorage
           (snd (Part001.update
                   (Part001.userLocalStorageRepository_of Part001.localStorageServiceLive)
                   (User.mk 1 "Changed") (initial_world empty_storage)))) !! "users"
    = Some "[]".
Proof.
  rewrite (@update_writes_the_empty_collection reference_JSON (User.mk 1 "Changed")
             (initial_world empty_storage)).
  - reflexivity.
  - reflexivity.
  - intros value. reflexivity.
  - left. reflexivity.
Defined.

Lemma inMemory_update_world (user : User.t) (w : World) :
  Part001.update Part001.inMemoryUserRepository_of user w = (Success tt,
    set_users
      {| elems := replace_first user (elems (users w));
         minus_one :=
           if bool_decide (User.id user ∈ ids (elems (users w)))
           then minus_one (users w) else Some user |} w).
Proof.
  rewrite inMemory_update_run. unfold replace_first.
  destruct (first_index _ (elems (users w))) as [i|] eqn:Hi.
  - rewrite bool_decide_eq_true_2; [reflexivity|].
    apply first_index_Some in Hi as (v & Hv & Hid & _). apply Z.eqb_eq in Hid.
    apply id_elem_of_ids. exists v. split; [|exact Hid].
    apply list_elem_of_lookup. eauto.
  - rewrite bool_decide_eq_false_2; [reflexivity|].
    intros (v & Hv & Hid)%id_elem_of_ids.
    pose proof (first_index_None _ _ Hi v Hv) as Hf. simpl in Hf.
    apply Z.eqb_neq in Hf. contradiction.
Qed.

(** What [update] over the store does to a collection of user records:
    it stores the collection with the record replaced, or leaves
    everything as it is: when the store cannot be read (the collection is
    then the empty one) and when the store refuses the write. *)
Lemma persisted_update_cases `{J : JSON} `{!JSONLaws J}
    (user : User.t) (l : list User.t) (w : World) :
  Part001.findAll (Part001.userLocalStorageRepository_of Part001.localStorageServiceLive) w
    = (Success (of_users l), w) ->
  let repo := Part001.userLocalStorageRepository_of Part001.localStorageServiceLive in
  let text := JSON_stringify (of_users (replace_first user l)) in
  let w1 := set_items (insert "users" text) w in
  (Part001.update repo user w = (Success tt, w1) /\
   Part001.findAll repo w1 = (Success (of_users (replace_first user l)), w1)) \/
  (Part001.update repo user w = (Success tt, w) /\ l = []) \/
  (Part001.update repo user w = (Success tt, w) /\
   exists t, quota_exceeded (localStorage w) "users" text = Some t).
Proof.
  intros Hall repo text w1. subst repo text w1.
  rewrite Part001Facts.findAll_run in Hall.
  destruct (Part001Facts.getItem_cases "users" w) as [[v Hv]|[e He]].
  - rewrite Hv in Hall. injection Hall as Htyped.
    assert (unavailable (localStorage w) = None) as Havailable.
    { rewrite Part001Facts.getItem_run in Hv.
      destruct (unavailable (localStorage w)); [discriminate | reflexivity]. }
    destruct (quota_exceeded (localStorage w) "users"
                (JSON_stringify (of_users (replace_first user l)))) as [t|] eqn:Hq.
    + right. right. split; [|eauto].
      rewrite Part001Facts.update_run, Hv, Htyped.
      rewrite Part001Facts.replace_user_of_users. fold (replace_first user l).
      rewrite Part001Facts.setItem_run, Havailable, Hq. reflexivity.
    + left.
      destruct (setItem_then_getItem "users" (of_users (replace_first user l)) w)
        as (Hset & Hget & _); [apply user_data_many | exact Havailable | exact Hq |].
      cbv zeta in Hset, Hget. split.
      * rewrite Part001Facts.update_run, Hv, Htyped.
        rewrite Part001Facts.replace_user_of_users. fold (replace_first user l).
        rewrite Hset. reflexivity.
      * rewrite Part001Facts.findAll_run, Hget. reflexivity.
  - right. left. split.
    + rewrite Part001Facts.update_run, He. reflexivity.
    + rewrite He in Hall. symmetry.
      apply of_users_inj. unfold of_users at 1. simpl. congruence.
Qed.

(** X7.  [update] is idempotent: a second [update(u)] right after the
    first changes nothing more, in the [users] array (property ["-1"]
    included) and, for a collection of user records, in the store. *)
Theorem update_is_idempotent `{J : JSON} `{!JSONLaws J}
    (user : User.t) (l : list User.t) (w : World) :
  let inMemory := Part001.inMemoryUserRepository_of in
  let persisted := Part001.userLocalStorageRepository_of Part001.localStorageServiceLive in
  Part001.update inMemory user (snd (Part001.update inMemory user w))
    = (Success tt, snd (Part001.update inMemory user w)) /\
  (Part001.findAll persisted w = (Success (of_users l), w) ->
   Part001.update persisted user (snd (Part001.update persisted user w))
     = (Success tt, snd (Part001.update persisted user w))).
Proof.
  cbv zeta. split.
  - rewrite (inMemory_update_world user w). cbn [snd].
    rewrite inMemory_update_world. cbn [users set_users elems minus_one].
    rewrite replace_first_idempotent, replace_first_ids.
    destruct (bool_decide (User.id user ∈ ids (elems (users w)))); reflexivity.
  - intros Hall.
    destruct (persisted_update_cases user l w Hall)
      as [[Hupdate Hafter]|[[Hsame _]|[Hsame _]]].
    + rewrite Hupdate. cbn [snd].
      destruct (persisted_update_cases user _ _ Hafter)
        as [[Hupdate2 _]|[[Hsame2 _]|[Hsame2 _]]].
      * rewrite Hupdate2, replace_first_idempotent, set_items_twice.
        f_equal. unfold set_items. do 2 f_equal. apply insert_insert_eq.
      * exact Hsame2.
      * exact Hsame2.
    + rewrite Hsame. cbn [snd]. exact Hsame.
    + rewrite Hsame. cbn [snd]. exact Hsame.
Qed.

Lemma update_is_idempotent_witness :
  let persisted := Part001.userLocalStorageRepository_of Part001.localStorageServiceLive in
  let w := initial_world (storage_with "users" (RefJSON.stringify (of_users seed))) in
  let u := User.mk 2 "Changed" in
  Part001.update persisted u (snd (Part001.update persisted u w))
    = (Success tt, snd (Part001.update persisted u w)).
Proof.
  intros persisted w u.
  destruct (@update_is_idempotent reference_JSON reference_JSONLaws u seed w) as [_ H].
  apply H. vm_compute. reflexivity.
Defined.

(** X8.  After [update(u)], [findById(u.id)] answers [u] when a record
    with that identifier was there and [undefined] when none was, and
    [findById] of every other identifier answers what it answered before.
    For both repositories of the second script; the one over the store is
    taken on a collection of user records and a store that accepts the
    write. *)
Theorem update_then_findById `{J : JSON} `{!JSONLaws J}
    (user : User.t) (l : list User.t) (w : World) :
  let inMemory := Part001.inMemoryUserRepository_of in
  let persisted := Part001.userLocalStorageRepository_of Part001.localStorageServiceLive in
  let expected (present : bool) : Exit (option json) Js.Error :=
    Success (if present then Some (of_user user) else None) in
  (fst (Part001.findById inMemory (User.id user) (snd (Part001.update inMemory user w)))
     = expected (bool_decide (User.id user ∈ ids (elems (users w)))) /\
   forall id, id <> User.id user ->
     fst (Part001.findById inMemory id (snd (Part001.update inMemory user w)))
       = fst (Part001.findById inMemory id w)) /\
  (writable "users" w ->
   Part001.findAll persisted w = (Success (of_users l), w) ->
   fst (Part001.findById persisted (User.id user) (snd (Part001.update persisted user w)))
     = expected (bool_decide (User.id user ∈ ids l)) /\
   forall id, id <> User.id user ->
     fst (Part001.findById persisted id (snd (Part001.update persisted user w)))
       = fst (Part001.findById persisted id w)).
Proof.
  cbv zeta. split.
  - rewrite (inMemory_update_world user w). cbn [snd]. split.
    + destruct (inMemory_findById_run (User.id user)
                  (set_users
                     {| elems := replace_first user (elems (users w));
                        minus_one :=
                          if bool_decide (User.id user ∈ ids (elems (users w)))
                          then minus_one (users w) else Some user |} w)) as [-> _].
      cbn [fst users set_users elems]. rewrite find_replace_first_same.
      destruct (bool_decide _); reflexivity.
    + intros id Hid.
      destruct (inMemory_findById_run id w) as [-> _].
      destruct (inMemory_findById_run id
                  (set_users
                     {| elems := replace_first user (elems (users w));
                        minus_one :=
                          if bool_decide (User.id user ∈ ids (elems (users w)))
                          then minus_one (users w) else Some user |} w)) as [-> _].
      cbn [fst users set_users elems]. now rewrite find_replace_first_other.
  - intros Hwritable Hall.
    assert (exists w1,
              Part001.update
                (Part001.userLocalStorageRepository_of Part001.localStorageServiceLive)
                user w = (Success tt, w1) /\
              Part001.findAll
                (Part001.userLocalStorageRepository_of Part001.localStorageServiceLive) w1
                = (Success (of_users (replace_first user l)), w1)) as (w1 & Hupdate & Hafter).
    { destruct (persisted_update_cases user l w Hall)
        as [[Hu Ha]|[[Hsame ->]|[_ [t Hq]]]]; [eauto| |].
      - exists w. split; [exact Hsame | exact Hall].
      - rewrite (Hwritable _) in Hq. discriminate. }
    rewrite Hupdate. cbn [snd]. split.
    + rewrite (Part001_persisted_findById _ _ _ Hafter). cbn [fst].
      rewrite find_replace_first_same. destruct (bool_decide _); reflexivity.
    + intros id Hid.
      rewrite (Part001_persisted_findById _ _ _ Hafter).
      rewrite (Part001_persisted_findById _ _ _ Hall). cbn [fst].
      now rewrite find_replace_first_other.
Qed.

Lemma update_then_findById_witness :
  let persisted := Part001.userLocalStorageRepository_of Part001.localStorageServiceLive in
  let w := initial_world (storage_with "users" (RefJSON.stringify (of_users seed))) in
  let u := User.mk 2 "Changed" in
  fst (Part001.findById persisted 2 (snd (Part001.update persisted u w)))
    = Success (Some (of_user u)) /\
  fst (Part001.findById persisted 1 (snd (Part001.update persisted u w)))
    = fst (Part001.findById persisted 1 w).
Proof.
  intros persisted w u.
  destruct (@update_then_findById reference_JSON reference_JSONLaws u seed w) as [_ H].
  destruct H as [Hsame Hother].
  - intros value. reflexivity.
  - vm_compute. reflexivity.
  - split; [exact Hsame|]. apply Hother. discriminate.
Defined.

(** X9.  [findById] agrees with [findAll]: when the collection [findAll]
    answers is a list of user records, [findById(id)] of the same
    repository answers the first record of that list whose identifier is
    [id], a record of the list with that identifier, and [undefined]
    exactly when no record of the list has it.  For the four repositories
    of the unnamed scripts. *)
Theorem findById_agrees_with_findAll `{J : JSON}
    (l : list User.t) (id : Z) (w : World) :
  let first := List.find (fun u => User.id u =? id) l in
  (match first with
   | Some u => u ∈ l /\ User.id u = id
   | None => id ∉ ids l
   end) /\
  (Part001.findAll (Part001.userLocalStorageRepository_of Part001.localStorageServiceLive) w
     = (Success (of_users l), w) ->
   Part001.findById (Part001.userLocalStorageRepository_of Part001.localStorageServiceLive)
     id w = (Success (of_user <$> first), w)) /\
  (Part001.findAll Part001.inMemoryUserRepository_of w = (Success (of_users l), w) ->
   Part001.findById Part001.inMemoryUserRepository_of id w
     = (Success (of_user <$> first), w)) /\
  (Part000.findAll Part000.userLocalStorageRepositoryLive w = (Success (of_users l), w) ->
   Part000.findById Part000.userLocalStorageRepositoryLive id w
     = (Success (of_user <$> first), w)) /\
  (Part000.findAll Part000.userInmemoryRepositoryLive w = (Success (of_users l), w) ->
   Part000.findById Part000.userInmemoryRepositoryLive id w
     = (Success (of_user <$> first), w)).
Proof.
  cbv zeta.
  assert (forall (E : Type),
            (Success (E := E) (of_users (elems (users w))), w) = (Success (of_users l), w) ->
            elems (users w) = l) as Hmem.
  { intros E Heq. apply of_users_inj. congruence. }
  destruct (inMemory_findById_run id w) as [H1 H0].
  repeat apply conj.
  - destruct (List.find _ l) as [u|] eqn:Hfind.
    + apply find_Some_elem in Hfind as [Hin Heq]. split; [exact Hin | now apply Z.eqb_eq].
    + intros (u & Hu & Hid)%id_elem_of_ids.
      pose proof (find_None_elem _ _ Hfind u Hu) as Hf. simpl in Hf.
      apply Z.eqb_neq in Hf. contradiction.
  - apply Part001_persisted_findById.
  - intros Hall. rewrite H1, (Hmem Js.Error Hall). reflexivity.
  - apply Part000_persisted_findById.
  - intros Hall. rewrite H0, (Hmem Js.Error Hall). reflexivity.
Qed.

Lemma findById_agrees_with_findAll_witness :
  let w := initial_world (storage_with "users" (RefJSON.stringify (of_users seed))) in
  Part001.findById (Part001.userLocalStorageRepository_of Part001.localStorageServiceLive)
    2 w = (Success (Some (of_user (User.mk 2 "User 2"))), w) /\
  Part000.findById Part000.userLocalStorageRepositoryLive 2 w
    = (Success (Some (of_user (User.mk 2 "User 2"))), w).
Proof.
  intros w.
  destruct (@findById_agrees_with_findAll reference_JSON seed 2 w) as (_ & H1 & _ & H0 & _).
  split; [apply H1 | apply H0]; vm_compute; reflexivity.
Defined.

(** X10.  [update] never adds or removes an identifier: the identifiers
    of the collection, in order, are the same after [update(u)] as
    before, for every [u].  In memory this holds on every platform; over
    the store on every collection of user records, whether the store
    takes the write or not. *)
Theorem update_keeps_the_identifiers `{J : JSON} `{!JSONLaws J}
    (user : User.t) (l : list User.t) (w : World) :
  let inMemory := Part001.inMemoryUserRepository_of in
  let persisted := Part001.userLocalStorageRepository_of Part001.localStorageServiceLive in
  ids (elems (users (snd (Part001.update inMemory user w)))) = ids (elems (users w)) /\
  (Part001.findAll persisted w = (Success (of_users l), w) ->
   exists l',
     Part001.findAll persisted (snd (Part001.update persisted user w))
       = (Success (of_users l'), snd (Part001.update persisted user w)) /\
     ids l' = ids l).
Proof.
  cbv zeta. split.
  - rewrite inMemory_update_world. cbn [snd users set_users elems].
    apply replace_first_ids.
  - intros Hall.
    destruct (persisted_update_cases user l w Hall)
      as [[Hupdate Hafter]|[[Hsame _]|[Hsame _]]].
    + rewrite Hupdate. cbn [snd]. eexists. split; [exact Hafter | apply replace_first_ids].
    + rewrite Hsame. cbn [snd]. eauto.
    + rewrite Hsame. cbn [snd]. eauto.
Qed.

Lemma update_keeps_the_identifiers_witness :
  let persisted := Part001.userLocalStorageRepository_of Part001.localStorageServiceLive in
  let w := initial_world (storage_with "users" (RefJSON.stringify (of_users seed))) in
  exists l',
    Part001.findAll persisted (snd (Part001.update persisted (User.mk 2 "Changed") w))
      = (Success (of_users l'),
         snd (Part001.update persisted (User.mk 2 "Changed") w)) /\
    ids l' = ids seed.
Proof.
  intros persisted w.
  destruct (@update_keeps_the_identifiers reference_JSON reference_JSONLaws
              (User.mk 2 "Changed") seed w) as [_ H].
  apply H. vm_compute. reflexivity.
Defined.

(** X11.  What [update] leaves alone.  The in-memory repository never
    touches the store or the console.  The repository over the store never
    touches the [users] array or the console, changes the store's items at
    the key ["users"] only, and never changes whether the store is
    usable. *)
Theorem update_frame `{J : JSON} (user : User.t) (w : World) :
  let inMemory := Part001.inMemoryUserRepository_of in
  let persisted := Part001.userLocalStorageRepository_of Part001.localStorageServiceLive in
  (localStorage (snd (Part001.update inMemory user w)) = localStorage w /\
   console (snd (Part001.update inMemory user w)) = console w) /\
  (users (snd (Part001.update persisted user w)) = users w /\
   console (snd (Part001.update persisted user w)) = console w /\
   unavailable (localStorage (snd (Part001.update persisted user w)))
     = unavailable (localStorage w) /\
   forall k, k <> "users" ->
     items (localStorage (snd (Part001.update persisted user w))) !! k
       = items (localStorage w) !! k).
Proof.
  cbv zeta. split.
  - rewrite inMemory_update_run. split; reflexivity.
  - rewrite Part001Facts.update_run.
    destruct (Part001Facts.getItem_cases "users" w) as [[v ->]|[e ->]]; [|auto].
    destruct (Part001.replace_user user (Part001.or_empty v)) as [users'|t]; [|auto].
    rewrite Part001Facts.setItem_run.
    destruct (unavailable (localStorage w)) eqn:Hu; [cbn [snd]; rewrite ?Hu; auto|].
    destruct (quota_exceeded _ _ _); cbn [snd]; [rewrite ?Hu; auto|].
    repeat split; try reflexivity; try assumption.
    intros k Hk. cbn [localStorage set_items items]. now apply lookup_insert_ne.
Qed.

(** ** Errors and outcomes of the store service *)

Lemma LocalStorageError_shape (message : string) :
  Js.name (LocalStorageError.new message) = "LocalStorageError" /\
  starts_with "LocalStorageError: " (Js.message (LocalStorageError.new message)).
Proof. split; [reflexivity|]. exists message. reflexivity. Qed.

Lemma parseError_shape (t : Thrown) :
  Js.name (LocalStorageError.parseError t) = "LocalStorageError" /\
  starts_with "LocalStorageError: " (Js.message (LocalStorageError.parseError t)).
Proof. destruct t; apply LocalStorageError_shape. Qed.

Lemma stringifyError_shape (t : Thrown) :
  Js.name (LocalStorageError.stringifyError t) = "LocalStorageError" /\
  starts_with "LocalStorageError: " (Js.message (LocalStorageError.stringifyError t)).
Proof. destruct t; apply LocalStorageError_shape. Qed.

(** X12.  Whatever goes wrong in the store service, the typed failure is
    a [LocalStorageError]: every failure of [getItem], [setItem] and
    [removeItem] of either script has the name [LocalStorageError] and a
    message that begins with [LocalStorageError: ], whatever was thrown
    (an [Error] of any kind, or a value that is no [Error]). *)
Theorem store_failures_are_LocalStorageErrors `{J : JSON}
    (k : string) (v : json) (w : World) (e : Js.Error) :
  fst (Part001.getItem Part001.localStorageServiceLive k w) = Failure e \/
  fst (Part001.setItem Part001.localStorageServiceLive k v w) = Failure e \/
  fst (Part001.removeItem Part001.localStorageServiceLive k w) = Failure e \/
  fst (Part000.getItem Part000.localStorageServiceLive k w) = Failure e \/
  fst (Part000.setItem Part000.localStorageServiceLive k v w) = Failure e \/
  fst (Part000.removeItem Part000.localStorageServiceLive k w) = Failure e ->
  Js.name e = "LocalStorageError" /\ starts_with "LocalStorageError: " (Js.message e).
Proof.
  rewrite Part001Facts.getItem_run, Part001Facts.setItem_run, permissive_removeItem_run.
  rewrite Part000Facts.strict_getItem_run, Part000Facts.strict_setItem_run,
    strict_removeItem_run.
  intros H.
  destruct (unavailable (localStorage w)) as [t|].
  - cbn [fst] in H.
    destruct H as [H|[H|[H|[H|[H|H]]]]]; injection H as <-;
      first [apply parseError_shape | apply stringifyError_shape | apply LocalStorageError_shape].
  - destruct (truthy_item _); destruct (quota_exceeded _ _ _) as [t|];
      try destruct (JSON_parse _) as [x|t']; cbn [fst] in H;
      destruct H as [H|[H|[H|[H|[H|H]]]]]; try discriminate H; injection H as <-;
      first [apply parseError_shape | apply stringifyError_shape | apply LocalStorageError_shape].
Qed.

Lemma store_failures_are_LocalStorageErrors_witness :
  let e := LocalStorageError.parseError (ThrownError (LocalStorageError.NotFound "users")) in
  Js.name e = "LocalStorageError" /\ starts_with "LocalStorageError: " (Js.message e).
Proof.
  intros e.
  apply (@store_failures_are_LocalStorageErrors reference_JSON "users" JNull
           (initial_world empty_storage) e).
  right. right. right. left. reflexivity.
Defined.

Ltac outcome_cases :=
  repeat split; intros;
  repeat match goal with
         | H : _ /\ _ |- _ => destruct H
         | H : exists _, _ |- _ => destruct H
         | H : _ \/ _ |- _ => destruct H
         end;
  simplify_eq; try congruence; try contradiction; eauto 8;
  try (left; discriminate); try (right; eauto 8).

(** X13.  When [getItem] answers what.  The strict [getItem(k)] succeeds
    with [v] exactly when the store is usable and the item under [k] is a
    non-empty text that [JSON.parse] reads as [v]; the permissive one
    succeeds with [v] in exactly the same cases, succeeds with
    [undefined] exactly when the store is usable and the item is unset or
    empty, and fails exactly when the store is unusable or the item is a
    non-empty text that [JSON.parse] rejects. *)
Theorem getItem_outcomes `{J : JSON} (k : string) (v : json) (w : World) :
  let strict := fst (Part000.getItem Part000.localStorageServiceLive k w) in
  let permissive := fst (Part001.getItem Part001.localStorageServiceLive k w) in
  let item := items (localStorage w) !! k in
  (strict = Success v <->
   available w /\ exists s, item = Some s /\ s <> "" /\ JSON_parse s = Normal v) /\
  (permissive = Success (Some v) <-> strict = Success v) /\
  (permissive = Success None <-> available w /\ (item = None \/ item = Some "")) /\
  ((exists e, permissive = Failure e) <->
   ~ available w \/ exists s t, item = Some s /\ s <> "" /\ JSON_parse s = Throw t).
Proof.
  cbv zeta. unfold available.
  rewrite Part001Facts.getItem_run, Part000Facts.strict_getItem_run.
  destruct (unavailable (localStorage w)) as [t0|]; cbn [fst].
  { outcome_cases. }
  destruct (items (localStorage w) !! k) as [s|] eqn:Hitem; cbn [truthy_item].
  - destruct (String.eqb_spec s "") as [->|Hne]; cbn [negb fst default from_option].
    + outcome_cases.
    + unfold id. destruct (JSON_parse s) as [x|t] eqn:Hparse; cbn [fst]; outcome_cases.
  - cbn [negb fst]. outcome_cases.
Qed.

(** ** The demos *)

Lemma Part001_main_dies_first (repo : Part001.UserRepository) (w : World) (t : Thrown) :
  Part001.findById repo 1 w = (Die t, w) -> Part001.main repo w = (Die t, w).
Proof. intros H. unfold Part001.main, Effect.flatMap. rewrite H. reflexivity. Qed.

Lemma Part001_main_dies_second (repo : Part001.UserRepository) (w : World)
    (user1 : option json) (t : Thrown) :
  Part001.findById repo 1 w = (Success user1, w) ->
  Part001.findById repo 2 w = (Die t, w) ->
  Part001.main repo w = (Die t, w).
Proof. intros H1 H2. unfold Part001.main, Effect.flatMap. rewrite H1, H2. reflexivity. Qed.

Lemma Part000_main_dies_first (repo : Part000.UserRepository) (w : World) (t : Thrown) :
  Part000.findById repo 1 w = (Die t, w) -> Part000.main repo w = (Die t, w).
Proof. intros H. unfold Part000.main, Effect.flatMap. rewrite H. reflexivity. Qed.

Lemma Part000_main_dies_second (repo : Part000.UserRepository) (w : World)
    (user1 : option json) (t : Thrown) :
  Part000.findById repo 1 w = (Success user1, w) ->
  Part000.findById repo 2 w = (Die t, w) ->
  Part000.main repo w = (Die t, w).
Proof. intros H1 H2. unfold Part000.main, Effect.flatMap. rewrite H1, H2. reflexivity. Qed.

Lemma Part001_persisted_lookup `{J : JSON} (id : Z) (w : World) :
  exists users,
    Part001.findAll (Part001.userLocalStorageRepository_of Part001.localStorageServiceLive) w
      = (Success users, w) /\
    ((exists user,
        Part001.findById
          (Part001.userLocalStorageRepository_of Part001.localStorageServiceLive) id w
          = (Success user, w)) \/
     (exists t,
        Part001.findById
          (Part001.userLocalStorageRepository_of Part001.localStorageServiceLive) id w
          = (Die t, w))).
Proof.
  rewrite Part001Facts.findById_run, Part001Facts.findAll_run.
  destruct (Part001Facts.getItem_cases "users" w) as [[v ->]|[e ->]];
    eexists; (split; [reflexivity|]);
    match goal with
    | |- context [call_find ?u ?p] => destruct (call_find u p)
    end; eauto.
Qed.

Lemma Part000_persisted_lookup `{J : JSON} (id : Z) (w : World) :
  exists users,
    Part000.findAll Part000.userLocalStorageRepositoryLive w = (Success users, w) /\
    ((exists user,
        Part000.findById Part000.userLocalStorageRepositoryLive id w = (Success user, w)) \/
     (exists t,
        Part000.findById Part000.userLocalStorageRepositoryLive id w = (Die t, w))).
Proof.
  rewrite Part000Facts.strict_findById_run, Part000Facts.strict_findAll_run.
  destruct (Part000Facts.strict_getItem_cases "users" w) as [[v ->]|[e ->]];
    eexists; (split; [reflexivity|]);
    match goal with
    | |- context [call_find ?u ?p] => destruct (call_find u p)
    end; eauto.
Qed.

(** X14.  All or nothing: on every platform and for every value of the
    environment variable, the demo of either unnamed script ends in
    success having printed exactly its three lines, or dies of a defect
    having printed nothing and changed nothing.  It never ends in a typed
    failure and never prints a part of its output. *)
Theorem demos_print_all_or_nothing `{J : JSON} (BUN_ENV : option string) (w : World) :
  ((exists user1 user2 all,
      Part001.run BUN_ENV w = (Success tt, three_lines user1 user2 all w)) \/
   (exists t, Part001.run BUN_ENV w = (Die t, w))) /\
  ((exists user1 user2 all,
      Part000.run w = (Success tt, three_lines user1 user2 all w)) \/
   (exists t, Part000.run w = (Die t, w))).
Proof.
  split.
  - assert (Part001.run BUN_ENV
            = Part001.main
                (if strict_eq_string BUN_ENV "development"
                 then Part001.inMemoryUserRepository_of
                 else Part001.userLocalStorageRepository_of Part001.localStorageServiceLive))
      as ->.
    { unfold Part001.run. destruct (strict_eq_string _ _); reflexivity. }
    destruct (strict_eq_string BUN_ENV "development").
    + left. do 3 eexists.
      apply Part001_main_run; try reflexivity; apply inMemory_findById_run.
    + destruct (Part001_persisted_lookup 1 w) as (all & Hall & [[u1 H1]|[t H1]]).
      * destruct (Part001_persisted_lookup 2 w) as (_ & _ & [[u2 H2]|[t H2]]).
        -- left. exists u1, u2, all. now apply Part001_main_run.
        -- right. exists t. eapply Part001_main_dies_second; eauto.
      * right. exists t. now apply Part001_main_dies_first.
  - unfold Part000.run.
    destruct (Part000_persisted_lookup 1 w) as (all & Hall & [[u1 H1]|[t H1]]).
    + destruct (Part000_persisted_lookup 2 w) as (_ & _ & [[u2 H2]|[t H2]]).
      * left. exists u1, u2, all. now apply Part000_main_run.
      * right. exists t. eapply Part000_main_dies_second; eauto.
    + right. exists t. now apply Part000_main_dies_first.
Qed.

(** ** The two scripts side by side *)

(** X15.  The repositories over the store of the two scripts differ in
    one guard, [users || []]: on every platform, when [findAll] of the
    first script answers [v], [findAll] of the second answers [v] if [v]
    is truthy and the empty array if it is not.  On a collection of user
    records they answer alike, [findById] included. *)
Theorem persisted_repositories_agree `{J : JSON} (w : World) (v : json) :
  Part000.findAll Part000.userLocalStorageRepositoryLive w = (Success v, w) ->
  Part001.findAll (Part001.userLocalStorageRepository_of Part001.localStorageServiceLive) w
    = (Success (if truthy v then v else JArr []), w) /\
  forall l, v = of_users l ->
    Part001.findAll (Part001.userLocalStorageRepository_of Part001.localStorageServiceLive) w
      = (Success (of_users l), w) /\
    forall id,
      Part001.findById
        (Part001.userLocalStorageRepository_of Part001.localStorageServiceLive) id w
        = Part000.findById Part000.userLocalStorageRepositoryLive id w.
Proof.
  intros Hall0.
  assert (Part001.findAll
            (Part001.userLocalStorageRepository_of Part001.localStorageServiceLive) w
          = (Success (if truthy v then v else JArr []), w)) as Hall1.
  { rewrite Part000Facts.strict_findAll_run, Part000Facts.strict_getItem_run in Hall0.
    rewrite Part001Facts.findAll_run, Part001Facts.getItem_run.
    destruct (unavailable (localStorage w)); [injection Hall0 as <-; reflexivity|].
    destruct (truthy_item _); [|injection Hall0 as <-; reflexivity].
    destruct (JSON_parse _); injection Hall0 as <-; reflexivity. }
  split; [exact Hall1|].
  intros l ->. change (truthy (of_users l)) with true in Hall1. split; [exact Hall1|].
  intros id.
  rewrite (Part001_persisted_findById l id w Hall1).
  rewrite (Part000_persisted_findById l id w Hall0). reflexivity.
Qed.

Lemma persisted_repositories_agree_witness :
  let w := initial_world (storage_with "users" "null") in
  Part000.findAll Part000.userLocalStorageRepositoryLive w = (Success JNull, w) /\
  Part001.findAll (Part001.userLocalStorageRepository_of Part001.localStorageServiceLive) w
    = (Success (JArr []), w).
Proof.
  intros w.
  assert (Part000.findAll Part000.userLocalStorageRepositoryLive w = (Success JNull, w))
    as H0 by (vm_compute; reflexivity).
  split; [exact H0|].
  exact (proj1 (@persisted_repositories_agree reference_JSON w JNull H0)).
Defined.

(** ** Stored data that is not user records *)







(** ** The repository of [Program.ts] *)





(** ** The error constructors *)



